(** * ArchaeologyWala: content pipeline of the single-file site

    A shallow embedding of the content-management part of
    [archaeology_wala_a_world_by_pryank_wadhera_single_file_site.jsx]:
    the string utilities ([slugify], [estimateMinutes]), the local-storage
    helpers ([loadLS], [saveLS]), the search/tag filter of the blog listing,
    the bookmark toggle, the table-of-contents scan and the glossary hook of
    [ArticleView], and the submission workflow of [Contribute].

    JavaScript strings are modelled by [string]: a character is one code
    unit, restricted to the range U+0000..U+00FF.  Regular expressions of
    the source are written out as the functions they denote; each
    definition quotes the expression it stands for. *)

From Stdlib Require Import ZArith List Ascii String Bool Lia.
From stdpp Require Import base option list gmap strings pretty sorting.
Import ListNotations.

Local Open Scope string_scope.
Local Open Scope list_scope.

(** ** JavaScript strings *)

Module Js.

(** Code unit of a character. *)
Definition code (c : ascii) : nat := nat_of_ascii c.

(** The class [\s] (also the set stripped by [trim]): TAB, LF, VT, FF, CR,
    SPACE and NO-BREAK SPACE are its members below U+0100. *)
Definition isSpace (c : ascii) : bool :=
  ((9 <=? code c)%nat && (code c <=? 13)%nat)
  || (code c =? 32)%nat || (code c =? 160)%nat.

(** Line terminators, the characters [.] refuses: LF and CR below U+0100. *)
Definition isLineTerminator (c : ascii) : bool :=
  (code c =? 10)%nat || (code c =? 13)%nat.

Definition isUpper (c : ascii) : bool := (65 <=? code c)%nat && (code c <=? 90)%nat.
Definition isLower (c : ascii) : bool := (97 <=? code c)%nat && (code c <=? 122)%nat.
Definition isDigit (c : ascii) : bool := (48 <=? code c)%nat && (code c <=? 57)%nat.

(** Upper-case letters of the Latin-1 supplement: U+00C0..U+00DE without
    the multiplication sign U+00D7. *)
Definition isUpperLatin1 (c : ascii) : bool :=
  (192 <=? code c)%nat && (code c <=? 222)%nat && negb (code c =? 215)%nat.

Definition toLowerChar (c : ascii) : ascii :=
  if isUpper c || isUpperLatin1 c then ascii_of_nat (code c + 32) else c.

(** [String.prototype.toLowerCase] *)
Fixpoint toLowerCase (s : string) : string :=
  match s with
  | EmptyString => EmptyString
  | String c s' => String (toLowerChar c) (toLowerCase s')
  end.

(** [s.replace(/[cls]/g, "")] for a character class [cls]: every member of
    the class is deleted. *)
Fixpoint removeAll (cls : ascii -> bool) (s : string) : string :=
  match s with
  | EmptyString => EmptyString
  | String c s' => if cls c then removeAll cls s' else String c (removeAll cls s')
  end.

Fixpoint trimStart (s : string) : string :=
  match s with
  | EmptyString => EmptyString
  | String c s' => if isSpace c then trimStart s' else s
  end.

Fixpoint trimEnd (s : string) : string :=
  match s with
  | EmptyString => EmptyString
  | String c s' =>
      match trimEnd s' with
      | EmptyString => if isSpace c then EmptyString else String c EmptyString
      | t => String c t
      end
  end.

(** [String.prototype.trim] *)
Definition trim (s : string) : string := trimEnd (trimStart s).

(** [s.replace(/\s+/g, r)]: every maximal run of white space becomes one
    copy of [r].  [inRun] tells that the previous character belonged to a
    run already replaced. *)
Fixpoint replaceSpaceRuns (r : string) (inRun : bool) (s : string) : string :=
  match s with
  | EmptyString => EmptyString
  | String c s' =>
      if isSpace c
      then (if inRun then replaceSpaceRuns r true s'
            else r ++ replaceSpaceRuns r true s')
      else String c (replaceSpaceRuns r false s')
  end.

(** Puts [c] in front of the first piece of a split. *)
Definition consHead (c : ascii) (pieces : list string) : list string :=
  match pieces with
  | [] => [String c EmptyString]
  | p :: ps => String c p :: ps
  end.

(** [s.split(sep)] for a one-character separator; the empty string splits
    into one empty piece. *)
Fixpoint splitChar (sep : ascii) (s : string) : list string :=
  match s with
  | EmptyString => [EmptyString]
  | String c s' =>
      if Ascii.eqb c sep then EmptyString :: splitChar sep s'
      else consHead c (splitChar sep s')
  end.

(** [s.split(/\s+/)]: the separators are the maximal runs of white space; a
    run at either end leaves an empty piece there. *)
Fixpoint splitSpaceRuns (inRun : bool) (s : string) : list string :=
  match s with
  | EmptyString => [EmptyString]
  | String c s' =>
      if isSpace c
      then (if inRun then splitSpaceRuns true s'
            else EmptyString :: splitSpaceRuns true s')
      else consHead c (splitSpaceRuns false s')
  end.

(** Truthiness of a string: only the empty string is falsy. *)
Definition truthy (s : string) : bool :=
  match s with EmptyString => false | _ => true end.

(** [a || b] on strings. *)
Definition or (a b : string) : string := if truthy a then a else b.

(** Number to string for an integer: its decimal notation, which is what
    JavaScript prints for the integers below 10^21 in magnitude (the
    values of [Date.now()] are far below). *)
Definition numToString (n : Z) : string := pretty n.

End Js.

(** ** Utilities of the source *)

(** The class [[^a-z0-9\s-]] of [slugify]. *)
Definition notSlugChar (c : ascii) : bool :=
  negb (Js.isLower c || Js.isDigit c || Js.isSpace c || Ascii.eqb c "-").

(** [str.toLowerCase().replace(/[^a-z0-9\s-]/g, "").trim().replace(/\s+/g, "-")] *)
Definition slugify (str : string) : string :=
  Js.replaceSpaceRuns "-" false
    (Js.trim (Js.removeAll notSlugChar (Js.toLowerCase str))).

(** [Math.round(n / d)] for a non-negative integer [n] and [d = 220]: the
    quotient is rounded to the nearest integer, a half upwards.  For the
    lengths an array can have the floating-point quotient rounds to the
    same integer as the exact one, so the integers suffice. *)
Definition roundDiv (n d : Z) : Z := (2 * n + d) / (2 * d).

(** [Math.max(3, Math.round(md.split(/\s+/).length / 220))] *)
Definition estimateMinutes (md : string) : Z :=
  Z.max 3 (roundDiv (Z.of_nat (List.length (Js.splitSpaceRuns false md))) 220).

(** ** Data model *)

Module Post.
Record t := mk {
  slug : string;
  title : string;
  author : string;
  date : string;
  hero : string;
  tags : list string;
  minutes : Z;
  body : string
}.
End Post.

(** The draft form of [Contribute]. *)
Module Form.
Record t := mk {
  name : string;
  email : string;
  affiliation : string;
  title : string;
  tags : string;
  cover : string;
  summary : string;
  body : string;
  agree : bool
}.

(** The form [submit] resets to. *)
Definition blank : t := mk "" "" "" "" "" "" "" "" false.
End Form.

(** [{ id, ...form, status:'pending', date }] *)
Module Submission.
Record t := mk {
  id : Z;
  form : Form.t;
  status : string;
  date : string
}.
Definition title (s : t) : string := Form.title (form s).
Definition name (s : t) : string := Form.name (form s).
Definition tags (s : t) : string := Form.tags (form s).
Definition cover (s : t) : string := Form.cover (form s).
Definition body (s : t) : string := Form.body (form s).
End Submission.

Inductive Page := home | blog | article | learn | library | contribute | about.

(** The two readings of the clock a handler makes: [Date.now()] and
    [new Date().toISOString()]. *)
Record Clock := { now : Z; isoNow : string }.

Definition nl : string := String (ascii_of_nat 10) EmptyString.

Definition samplePosts : list Post.t := [
  Post.mk "pottery-through-ages"
    "Pottery Through the Ages: From Neolithic to Classical"
    "Pryank Wadhera" "2025-08-21"
    "https://images.unsplash.com/photo-1545239351-1141bd82e8a6?q=80&w=1400&auto=format&fit=crop"
    ["material culture"; "ceramics"; "field methods"] 9
    "# Pottery Through the Ages

Pottery is one of the most **diagnostic** classes of artifacts in archaeology.

## Neolithic beginnings
Handmade, low-fired vessels appear with the rise of sedentism.

## Form & function
Rim profiles, tempers, and surface treatments are key for *typological* studies.

## Classical refinements
Wheel-thrown finewares, slips, and painted motifs enable tight **chronologies**.

> Field note: Sherds dominate most survey assemblages; bring sturdy bags!

### Further reading
- Rice, *Pottery Analysis*
- Orton & Hughes, *Pottery in Archaeology*
";
  Post.mk "archaeology-101-field-kit"
    "Archaeology 101: Building a Field Kit"
    "Pryank Wadhera" "2025-07-10"
    "https://images.unsplash.com/photo-1519120944692-1f7e6e7fbd3d?q=80&w=1400&auto=format&fit=crop"
    ["field methods"; "how-to"; "gear"] 6
    "# Archaeology 101: Building a Field Kit

A dependable kit keeps digs safe and efficient.

## Essentials
- Trowel (pointed and margin)
- Brushes (soft + stiff)
- Scale bars & photo board
- Hand lens (10x)

## Recording
- Waterproof notebook
- Context sheets
- GPS/total station access

### Safety
Sun protection, hydration plan, first aid.
";
  Post.mk "digital-archaeology"
    "Digital Archaeology: Drones, Photogrammetry, and 3D"
    "Pryank Wadhera" "2025-06-14"
    "https://images.unsplash.com/photo-1500530855697-b586d89ba3ee?q=80&w=1400&auto=format&fit=crop"
    ["technology"; "survey"; "3D"] 8
    "# Digital Archaeology: Drones, Photogrammetry, and 3D

Cheap sensors + fast compute have transformed documentation.

## Flight planning
Overlap, GSD, and ground control points matter.

## From pixels to points
Structure-from-Motion generates dense point clouds and textured meshes.

## Ethics
Mind permissions, privacy, and site protection.
"
].

(** [const glossary: Record<string, string>] *)
Definition glossary : list (string * string) := [
  ("typological", "Classification of artifacts based on shared attributes.");
  ("sherds", "Broken pieces of ceramic material found at sites.");
  ("chronology", "The dating and sequencing of past events and materials.")
].

(** ** Application state

    The [useState] cells the handlers below read and write, and the
    messages shown through [alert]. *)
Record App := {
  posts : list Post.t;
  bookmarks : list string;
  submissions : list Submission.t;
  query : string;
  page : Page;
  form : Form.t;
  alerts : list string
}.

Definition setPosts (f : list Post.t -> list Post.t) (a : App) : App :=
  {| posts := f (posts a); bookmarks := bookmarks a;
     submissions := submissions a; query := query a; page := page a;
     form := form a; alerts := alerts a |}.

Definition setBookmarks (f : list string -> list string) (a : App) : App :=
  {| posts := posts a; bookmarks := f (bookmarks a);
     submissions := submissions a; query := query a; page := page a;
     form := form a; alerts := alerts a |}.

Definition setSubmissions (f : list Submission.t -> list Submission.t) (a : App) : App :=
  {| posts := posts a; bookmarks := bookmarks a;
     submissions := f (submissions a); query := query a; page := page a;
     form := form a; alerts := alerts a |}.

Definition setQuery (q : string) (a : App) : App :=
  {| posts := posts a; bookmarks := bookmarks a;
     submissions := submissions a; query := q; page := page a;
     form := form a; alerts := alerts a |}.

Definition setPage (p : Page) (a : App) : App :=
  {| posts := posts a; bookmarks := bookmarks a;
     submissions := submissions a; query := query a; page := p;
     form := form a; alerts := alerts a |}.

Definition setForm (f : Form.t) (a : App) : App :=
  {| posts := posts a; bookmarks := bookmarks a;
     submissions := submissions a; query := query a; page := page a;
     form := f; alerts := alerts a |}.

Definition alert (msg : string) (a : App) : App :=
  {| posts := posts a; bookmarks := bookmarks a;
     submissions := submissions a; query := query a; page := page a;
     form := form a; alerts := alerts a ++ [msg] |}.

(** ** Bookmarks *)

(** [bm.includes(slug)] *)
Definition includes (x : string) (l : list string) : bool :=
  existsb (String.eqb x) l.

(** [bm => bm.includes(slug) ? bm.filter(s => s!==slug) : [...bm, slug]] *)
Definition toggleBookmarkList (slug : string) (bm : list string) : list string :=
  if includes slug bm
  then List.filter (fun s => negb (String.eqb s slug)) bm
  else bm ++ [slug].

Definition toggleBookmark (slug : string) (a : App) : App :=
  setBookmarks (toggleBookmarkList slug) a.

(** ** Submission workflow ([Contribute]) *)

Definition submit (clk : Clock) (a : App) : App :=
  let f := form a in
  if negb (Js.truthy (Form.name f)) || negb (Js.truthy (Form.email f))
     || negb (Js.truthy (Form.title f)) || negb (Js.truthy (Form.body f))
     || negb (Form.agree f)
  then alert "Please fill required fields and agree to the terms." a
  else
    let id := now clk in
    let sub := Submission.mk id f "pending" (isoNow clk) in
    alert "Thanks! Your article was submitted for review."
      (setForm Form.blank (setSubmissions (fun prev => sub :: prev) a)).

Definition placeholderHero : string :=
  "https://images.unsplash.com/photo-1541417904950-b855846fe074?q=80&w=1600&auto=format&fit=crop".

(** [s.tags ? s.tags.split(',').map(t => t.trim()).filter(Boolean) : []] *)
Definition parseTags (raw : string) : list string :=
  if Js.truthy raw
  then List.filter Js.truthy (List.map Js.trim (Js.splitChar "," raw))
  else [].

(** [slugify(s.title) || ('submission-' + s.id)] *)
Definition deriveSlug (s : Submission.t) : string :=
  Js.or (slugify (Submission.title s))
        ("submission-" ++ Js.numToString (Submission.id s)).

(** The post [approve] builds from a submission. *)
Definition postOf (clk : Clock) (s : Submission.t) : Post.t :=
  Post.mk (deriveSlug s)
    (Submission.title s)
    (Submission.name s)
    (String.substring 0 10 (isoNow clk))
    (Js.or (Submission.cover s) placeholderHero)
    (parseTags (Submission.tags s))
    (estimateMinutes (Submission.body s))
    ("# " ++ Submission.title s ++ nl ++ nl ++ Submission.body s).

(** [addPost] as [ArchaeologyWalaApp] passes it: [p => setPosts(prev => [p, ...prev])] *)
Definition addPost (p : Post.t) (a : App) : App :=
  setPosts (fun prev => p :: prev) a.

Definition removeSubmission (s : Submission.t) (prev : list Submission.t) : list Submission.t :=
  List.filter (fun x => negb (Submission.id x =? Submission.id s)%Z) prev.

Definition approve (clk : Clock) (s : Submission.t) (a : App) : App :=
  setPage blog (setSubmissions (removeSubmission s) (addPost (postOf clk s) a)).

(** [reject]; [confirmed] is the answer to the [confirm] prompt. *)
Definition reject (confirmed : bool) (s : Submission.t) (a : App) : App :=
  if negb confirmed then a else setSubmissions (removeSubmission s) a.

(** ** Search and tag filter of the blog listing *)

(** One entry of the ranked list [fuse.search] returns. *)
Record FuseResult := { item : Post.t; refIndex : nat }.

(** The fuzzy matcher of fuse.js, a library outside the repository:
    [search C q] stands for
    [new Fuse(C, { keys: ['title','tags','body'], threshold: 0.33 }).search(q)]. *)
Class Fuse := { search : list Post.t -> string -> list FuseResult }.

(** [if (!query) return posts; return fuse.search(query).map(r => r.item);] *)
Definition filtered `{Fuse} (posts : list Post.t) (query : string) : list Post.t :=
  if negb (Js.truthy query) then posts
  else List.map item (search posts query).

Definition hasTag (tag : string) (p : Post.t) : bool := includes tag (Post.tags p).

(** [tag ? posts.filter(p => p.tags.includes(tag)) : posts], where [tag] is
    [undefined] until a chip is chosen. *)
Definition shown (tag : option string) (posts : list Post.t) : list Post.t :=
  match tag with
  | Some t => if Js.truthy t then List.filter (hasTag t) posts else posts
  | None => posts
  end.

(** What the blog page lists: [BlogIndex] receives [filtered] as its [posts]. *)
Definition blogListing `{Fuse} (tag : option string) (a : App) : list Post.t :=
  shown tag (filtered (posts a) (query a)).

(** What the matcher promises about its results: each one is an entry of
    the collection it was built from, found at [refIndex]. *)
Definition FuseSound `{Fuse} : Prop :=
  forall (C : list Post.t) (q : string) (r : FuseResult),
    In r (search C q) -> nth_error C (refIndex r) = Some (item r).

(** ** Table of contents ([ArticleView]) *)

Record TocItem := { level : nat; text : string; id : string }.

Fixpoint allChars (p : ascii -> bool) (s : string) : bool :=
  match s with
  | EmptyString => true
  | String c s' => p c && allChars p s'
  end.

Fixpoint hashes (n : nat) : string :=
  match n with
  | O => EmptyString
  | S k => String "#" (hashes k)
  end.

(** The heading expression [/^(#{1,6})\s+(.+)$/] is run the way a
    backtracking matcher runs it, each quantifier greedy. *)

(** [(.+)$]: at least one character, none of them a line terminator, up to
    the end of the input. *)
Definition matchText (s : string) : option string :=
  if Js.truthy s && allChars (fun c => negb (Js.isLineTerminator c)) s
  then Some s else None.

(** [\s+(.+)$]: after one white-space character the longer run is tried
    first, then the text. *)
Fixpoint matchSpacesText (s : string) : option string :=
  match s with
  | EmptyString => None
  | String c s' =>
      if Js.isSpace c then
        match matchSpacesText s' with
        | Some t => Some t
        | None => matchText s'
        end
      else None
  end.

(** [#{1,6}\s+(.+)$] with [taken] marks consumed and at most [more] to
    come: one more mark is tried first. *)
Fixpoint matchMarks (more taken : nat) (s : string) : option (string * string) :=
  let stop :=
    if (1 <=? taken)%nat
    then option_map (fun t => (hashes taken, t)) (matchSpacesText s)
    else None in
  match more with
  | O => stop
  | S k =>
      match s with
      | String c s' =>
          if Ascii.eqb c "#" then
            match matchMarks k (S taken) s' with
            | Some r => Some r
            | None => stop
            end
          else stop
      | EmptyString => stop
      end
  end.

(** [/^(#{1,6})\s+(.+)$/.exec(line)]: the two groups of a match. *)
Definition headingExec (line : string) : option (string * string) :=
  matchMarks 6 0 line.

Definition isBacktick (c : ascii) : bool := Ascii.eqb c "`".

(** One turn of the loop over the lines. *)
Definition tocStep (items : list TocItem) (line : string) : list TocItem :=
  match headingExec line with
  | Some (m1, m2) =>
      let level := String.length m1 in
      let text := Js.removeAll isBacktick m2 in
      let id := slugify text in
      items ++ [{| level := level; text := text; id := id |}]
  | None => items
  end.

(** The outline [setToc] receives for a post body. *)
Definition buildToc (body : string) : list TocItem :=
  fold_left tocStep (Js.splitChar "010" body) [].

(** ** Glossary hook ([components.text]) *)

(** Case folding of the [i] flag for a pattern of ASCII letters: only the
    ASCII capitals fold. *)
Definition foldAscii (c : ascii) : ascii :=
  if Js.isUpper c then ascii_of_nat (Js.code c + 32) else c.

(** The text a lower-case pattern matches at the start of [s], if any. *)
Fixpoint prefixCI (pat s : string) : option string :=
  match pat with
  | EmptyString => Some EmptyString
  | String p pat' =>
      match s with
      | String c s' =>
          if Ascii.eqb (foldAscii c) p
          then option_map (String c) (prefixCI pat' s')
          else None
      | EmptyString => None
      end
  end.

Definition orElse {A} (x y : option A) : option A :=
  match x with Some _ => x | None => y end.

(** [(typological|sherds|chronologies?)] at the start of [s]: alternatives
    in order, the optional [s] taken when it is there. *)
Definition matchTerm (s : string) : option string :=
  orElse (prefixCI "typological" s)
  (orElse (prefixCI "sherds" s)
  (orElse (prefixCI "chronologies" s) (prefixCI "chronologie" s))).

(** [text.split(/(typological|sherds|chronologies?)/gi)]: the pieces between
    the matches, each match kept as a piece of its own.  [skip] counts the
    characters of the current match still to pass. *)
Fixpoint splitTerms (skip : nat) (s : string) : list string :=
  match s with
  | EmptyString => [EmptyString]
  | String c s' =>
      match skip with
      | S k => splitTerms k s'
      | O =>
          match matchTerm s with
          | Some m => EmptyString :: m :: splitTerms (String.length m - 1) s'
          | None => Js.consHead c (splitTerms 0 s')
          end
      end
  end.

(** [s.replace(/s$/, '')] *)
Fixpoint dropFinalS (s : string) : string :=
  match s with
  | EmptyString => EmptyString
  | String c s' =>
      match s' with
      | EmptyString => if Ascii.eqb c "s" then EmptyString else s
      | _ => String c (dropFinalS s')
      end
  end.

(** What [glossary[key]] evaluates to: an entry of the object or a member
    inherited from [Object.prototype]. *)
Inductive GlossaryValue :=
| Own (d : string)
| Inherited (key : string).

Definition objectPrototypeKeys : list string :=
  ["constructor"; "__defineGetter__"; "__defineSetter__"; "hasOwnProperty";
   "__lookupGetter__"; "__lookupSetter__"; "isPrototypeOf";
   "propertyIsEnumerable"; "toString"; "valueOf"; "__proto__";
   "toLocaleString"].

Definition glossaryMap : gmap string string := list_to_map glossary.

Definition glossaryGet (key : string) : option GlossaryValue :=
  match glossaryMap !! key with
  | Some d => Some (Own d)
  | None => if includes key objectPrototypeKeys then Some (Inherited key) else None
  end.

Definition truthyValue (v : option GlossaryValue) : bool :=
  match v with
  | Some (Own d) => Js.truthy d
  | Some (Inherited _) => true
  | None => false
  end.

(** What the hook renders for one piece. *)
Inductive Rendered :=
| Span (title : GlossaryValue) (part : string)
| Fragment (part : string).

Definition glossaryKey (part : string) : string :=
  dropFinalS (Js.toLowerCase part).

Definition renderPart (part : string) : Rendered :=
  match glossaryGet (glossaryKey part) with
  | Some v => if truthyValue (Some v) then Span v part else Fragment part
  | None => Fragment part
  end.

(** [components.text] *)
Definition textComponent (children : string) : list Rendered :=
  List.map renderPart (splitTerms 0 children).

(** ** Local storage helpers *)

Inductive Exception :=
| SecurityError | QuotaExceededError | SyntaxError | TypeError | ReferenceError.

(** Outcome of evaluating an expression that may throw. *)
Inductive Completion (A : Type) :=
| Normal (a : A)
| Throw (e : Exception).
Arguments Normal {A} a.
Arguments Throw {A} e.

#[global] Instance Completion_ret : MRet Completion := fun A a => Normal a.
#[global] Instance Completion_bind : MBind Completion := fun A B f m =>
  match m with
  | Normal a => f a
  | Throw e => Throw e
  end.

(** [try { body } catch { handler }] *)
Definition tryCatch {A} (body : Completion A) (handler : Exception -> Completion A)
  : Completion A :=
  match body with
  | Normal a => Normal a
  | Throw e => handler e
  end.

(** The part of [window.localStorage] the helpers call; either call may
    throw (storage disabled, quota exceeded). *)
Class Storage (St : Type) := {
  getItem : St -> string -> Completion (option string);
  setItem : St -> string -> string -> Completion St
}.

(** [JSON.parse] and [JSON.stringify] over the values [V] a key holds;
    [stringify] gives [None] where JavaScript gives [undefined]. *)
Class Json (V : Type) := {
  parse : string -> Completion V;
  stringify : V -> Completion (option string)
}.

(** The string [setItem] receives for the result of [JSON.stringify]. *)
Definition toStringArg (r : option string) : string :=
  match r with
  | Some txt => txt
  | None => "undefined"
  end.

Section LocalStorage.
Context {St V : Type} `{Storage St} `{Json V}.

(** [try { const val = localStorage.getItem(key);
          return val ? JSON.parse(val) : fallback; } catch { return fallback; }] *)
Definition loadLS (st : St) (key : string) (fallback : V) : Completion V :=
  tryCatch
    (val ← getItem st key;
     match val with
     | Some raw => if Js.truthy raw then parse raw else mret fallback
     | None => mret fallback
     end)
    (fun _ => mret fallback).

(** [try { localStorage.setItem(key, JSON.stringify(val)); } catch {}];
    the result is the storage left behind. *)
Definition saveLS (st : St) (key : string) (val : V) : Completion St :=
  tryCatch
    (txt ← stringify val;
     setItem st key (toStringArg txt))
    (fun _ => mret st).

(** A state cell and its write-through effect, as in
    [setBookmarks(f)] followed by
    [useEffect(() => { saveLS('aw:bookmarks', bookmarks); }, [bookmarks])]. *)
Definition updateAndPersist (key : string) (f : V -> V) (mem : V) (st : St)
  : Completion (V * St) :=
  let mem' := f mem in
  st' ← saveLS st key mem';
  mret (mem', st').

End LocalStorage.

(** A browser storage area: the stored items, whether access is allowed,
    and the room the origin has. *)
Record BrowserStorage := {
  items : gmap string string;
  accessible : bool;
  quota : N
}.

Definition usage (m : gmap string string) : N :=
  map_fold (fun k v acc => N.of_nat (String.length k) + N.of_nat (String.length v) + acc)%N 0%N m.

#[global] Instance BrowserStorage_api : Storage BrowserStorage := {|
  getItem st key :=
    if accessible st then Normal (items st !! key) else Throw SecurityError;
  setItem st key val :=
    if accessible st then
      let m := <[key := val]> (items st) in
      if (usage m <=? quota st)%N
      then Normal {| items := m; accessible := true; quota := quota st |}
      else Throw QuotaExceededError
    else Throw SecurityError
|}.

(** [JSON] on the booleans (the value of ['aw:dark']). *)
#[global] Instance Json_bool : Json bool := {|
  parse txt :=
    if String.eqb txt "true" then Normal true
    else if String.eqb txt "false" then Normal false
    else Throw SyntaxError;
  stringify b := Normal (Some (if b then "true" else "false"))
|}.

(** ** Sessions

    What a visitor can do to the state, one handler at a time.  A first
    visit starts from the sample corpus: every [loadLS] falls back to its
    default. *)

Definition init : App := {|
  posts := samplePosts;
  bookmarks := [];
  submissions := [];
  query := "";
  page := home;
  form := Form.blank;
  alerts := []
|}.

Inductive step : App -> App -> Prop :=
| step_setForm f a : step a (setForm f a)
| step_setQuery q a : step a (setQuery q a)
| step_setPage p a : step a (setPage p a)
| step_toggleBookmark slug a : step a (toggleBookmark slug a)
| step_submit clk a : step a (submit clk a)
| step_approve clk s a : In s (submissions a) -> step a (approve clk s a)
| step_reject ok s a : In s (submissions a) -> step a (reject ok s a).

Definition reachable (a : App) : Prop := rtc step init a.

Definition slugs (a : App) : list string := List.map Post.slug (posts a).

(** Number of posts of the corpus that carry the slug [sl]. *)
Definition slugCount (sl : string) (ps : list Post.t) : nat :=
  List.length (List.filter (fun p => String.eqb (Post.slug p) sl) ps).

(** A session that publishes a second post under a slug of the sample
    corpus. *)
Definition potteryForm : Form.t :=
  Form.mk "A. Reader" "reader@example.org" "" "Pottery Through Ages" "" "" ""
    "More on pottery." true.

Definition noon : Clock :=
  {| now := 1756728000000; isoNow := "2025-09-01T12:00:00.000Z" |}.

Definition potterySubmission : Submission.t :=
  Submission.mk 1756728000000 potteryForm "pending" "2025-09-01T12:00:00.000Z".

Definition potterySession : App :=
  approve noon potterySubmission (submit noon (setForm potteryForm init)).

(** A stand-in for the fuzzy matcher, used to run the listing: it keeps the
    posts whose title starts with the query, in corpus order. *)
Fixpoint prefixScan (i : nat) (C : list Post.t) (q : string) : list FuseResult :=
  match C with
  | [] => []
  | p :: C' =>
      if String.prefix q (Post.title p)
      then {| item := p; refIndex := i |} :: prefixScan (S i) C' q
      else prefixScan (S i) C' q
  end.

Definition prefixFuse : Fuse := {| search C q := prefixScan 0 C q |}.

(** The submission of the worked example: title [Pottery 101!], no tags,
    no cover. *)
Definition introSubmission : Submission.t :=
  Submission.mk 1756728000001
    (Form.mk "A. Reader" "reader@example.org" "" "Pottery 101!" "" "" "" "Text." true)
    "pending" "2025-09-01T12:00:00.001Z".

(** A submission whose title has no letter or digit. *)
Definition bangSubmission : Submission.t :=
  Submission.mk 42
    (Form.mk "A. Reader" "reader@example.org" "" "!!!" " survey , ,3D" "" "" "Text." true)
    "pending" "2025-09-01T12:00:00.000Z".

(** Storage areas used to run the helpers. *)
Definition emptyStorage : BrowserStorage :=
  {| items := ∅; accessible := true; quota := 5000000 |}.

Definition darkSaved : BrowserStorage :=
  {| items := <["aw:dark" := "false"]> ∅; accessible := true; quota := 5000000 |}.

Definition corruptStorage : BrowserStorage :=
  {| items := <["aw:dark" := "{oops"]> ∅; accessible := true; quota := 5000000 |}.

Definition blockedStorage : BrowserStorage :=
  {| items := ∅; accessible := false; quota := 5000000 |}.

Definition fullStorage : BrowserStorage :=
  {| items := ∅; accessible := true; quota := 3 |}.

(** ** The outline in closed form *)

(** The entries one line contributes. *)
Definition lineEntry (line : string) : list TocItem := tocStep [] line.

Definition startsWithSpace (s : string) : bool :=
  match s with
  | String c _ => Js.isSpace c
  | EmptyString => false
  end.

Definition notLineTerminator (c : ascii) : bool := negb (Js.isLineTerminator c).

(** [line] is a heading of level [n] with raw text [txt]: [n] marks, one to
    six, a non-empty run of white space, then [txt], which is not empty,
    has no line terminator and runs to the end of the line.  The run takes
    all the white space it can: [txt] starts with white space only when
    the line has nothing but white space after the marks, and then [txt]
    is its last character. *)
Definition HeadingLine (line : string) (n : nat) (txt : string) : Prop :=
  exists ws : string,
    line = (hashes n ++ ws ++ txt)%string
    /\ (1 <= n <= 6)%nat
    /\ ws <> "" /\ allChars Js.isSpace ws = true
    /\ txt <> "" /\ allChars notLineTerminator txt = true
    /\ (startsWithSpace txt = false \/ String.length txt = 1%nat).

(** The characters a slug is made of. *)
Definition isSlugChar (c : ascii) : bool :=
  Js.isLower c || Js.isDigit c || Ascii.eqb c "-".

(** ** The outline as the specification words it

    Marks, then a space, then the text; the emphasis markers of the markup
    are taken out of the text; the id keeps lower-case letters, digits,
    spaces and hyphens. *)

Fixpoint countMarks (s : string) : nat * string :=
  match s with
  | String c s' =>
      if Ascii.eqb c "#"
      then let '(n, rest) := countMarks s' in (Datatypes.S n, rest)
      else (0%nat, s)
  | EmptyString => (0%nat, s)
  end.

Definition headingAsSpecified (line : string) : option (nat * string) :=
  let '(n, rest) := countMarks line in
  if (1 <=? n)%nat && (n <=? 6)%nat then
    match rest with
    | String c txt =>
        if Ascii.eqb c " " && Js.truthy txt then Some (n, txt) else None
    | EmptyString => None
    end
  else None.

Definition isEmphasisMarker (c : ascii) : bool :=
  Ascii.eqb c "*" || Ascii.eqb c "_" || Ascii.eqb c "`".

Definition notSpecifiedSlugChar (c : ascii) : bool :=
  negb (Js.isLower c || Js.isDigit c || Ascii.eqb c " " || Ascii.eqb c "-").

Definition slugifyAsSpecified (str : string) : string :=
  Js.replaceSpaceRuns "-" false
    (Js.trim (Js.removeAll notSpecifiedSlugChar (Js.toLowerCase str))).

Definition lineEntryAsSpecified (line : string) : list TocItem :=
  match headingAsSpecified line with
  | Some (n, rest) =>
      let text := Js.removeAll isEmphasisMarker rest in
      [{| level := n; text := text; id := slugifyAsSpecified text |}]
  | None => []
  end.

Definition tocAsSpecified (body : string) : list TocItem :=
  List.concat (List.map lineEntryAsSpecified (Js.splitChar "010" body)).

(** ** Pieces of the glossary split *)

Definition sherdsDefinition : string :=
  "Broken pieces of ceramic material found at sites.".

(** A piece the split can produce: a match of the expression, or a stretch
    of text that does not begin with one. *)
Definition Piece (p : string) : Prop :=
  (exists s, matchTerm s = Some p) \/ matchTerm p = None.

Definition isSpan (r : Rendered) : bool :=
  match r with
  | Span _ _ => true
  | Fragment _ => false
  end.

(** * Further parts of the site *)

(** ** Cards of the listings *)

(** [p.minutes || estimateMinutes(p.body)], the reading time shown on the
    cards of [LatestPosts] and [BlogIndex] and in the header of
    [ArticleView]. *)
Definition minutesShown (p : Post.t) : Z :=
  if (Post.minutes p =? 0)%Z then estimateMinutes (Post.body p) else Post.minutes p.

(** The class [[#>*`]]. *)
Definition isMarkup (c : ascii) : bool :=
  Ascii.eqb c "#" || Ascii.eqb c ">" || Ascii.eqb c "*" || Ascii.eqb c "`".

(** [p.body.replace(/[#>*`]/g, '').slice(0, 120)], the teaser of a card of
    [BlogIndex]. *)
Definition excerpt (p : Post.t) : string :=
  String.substring 0 120 (Js.removeAll isMarkup (Post.body p)).

(** A [Set] of strings, as the list of its members in insertion order. *)
Module JsSet.
Definition has (x : string) (cur : list string) : bool := includes x cur.
Definition add (x : string) (cur : list string) : list string :=
  if includes x cur then cur else cur ++ [x].
Definition delete (x : string) (cur : list string) : list string :=
  List.filter (fun y => negb (String.eqb y x)) cur.
(** [new Set(arr)] *)
Definition fromArray (arr : list string) : list string :=
  fold_left (fun cur x => add x cur) arr [].
End JsSet.

(** [Array.from(new Set(posts.flatMap(p => p.tags))).sort()]: the default
    order of [sort] compares strings code unit by code unit. *)
Definition allTags (posts : list Post.t) : list string :=
  merge_sort String.le (JsSet.fromArray (List.flat_map Post.tags posts)).

(** ** Objects read by key *)

(** What [o[key]] finds on an object literal or a parsed JSON object: a
    property of its own, a member inherited from [Object.prototype], or
    nothing ([undefined]). *)
Inductive Lookup (A : Type) :=
| Found (a : A)
| FromPrototype (key : string)
| Missing.
Arguments Found {A} a.
Arguments FromPrototype {A} key.
Arguments Missing {A}.

Definition getMember {A} (o : gmap string A) (key : string) : Lookup A :=
  match o !! key with
  | Some a => Found a
  | None =>
      if includes key objectPrototypeKeys then FromPrototype key else Missing
  end.

(** ** Applause ([clap]) *)

(** A value of the [likes] object: a count or, once a member of
    [Object.prototype] got into a sum, a text.  Counts are integers below
    2^53 in practice, where adding one is exact. *)
Inductive LikeValue :=
| Num (n : Z)
| Str (s : string).

(** The text an engine prints for a member of [Object.prototype] (the
    source of a built-in function, [[object Object]] for the prototype
    itself). *)
Class Engine := { memberText : string -> string }.

(** [(prev[slug] || 0) + 1]: a count grows by one, zero and a missing entry
    give one, a text or an inherited member gets ["1"] appended. *)
Definition bump `{Engine} (v : Lookup LikeValue) : LikeValue :=
  match v with
  | Found (Num n) => Num ((if (n =? 0)%Z then 0 else n) + 1)
  | Found (Str s) => if Js.truthy s then Str (s +:+ "1") else Num (0 + 1)
  | FromPrototype key => Str (memberText key +:+ "1")
  | Missing => Num (0 + 1)
  end.

(** [prev => ({ ...prev, [slug]: (prev[slug]||0) + 1 })] *)
Definition clap `{Engine} (slug : string) (prev : gmap string LikeValue)
  : gmap string LikeValue :=
  <[slug := bump (getMember prev slug)]> prev.

(** ** Learning paths ([LearningTracks]) *)

Module LearningTracks.

(** The updater of [toggle]:
    [const cur = new Set(p[trackId] || []);
     cur.has(msId) ? cur.delete(msId) : cur.add(msId);
     return { ...p, [trackId]: Array.from(cur) };]
    An inherited member is truthy and not iterable, so [new Set] throws. *)
Definition toggle (trackId msId : string) (p : gmap string (list string))
  : Completion (gmap string (list string)) :=
  cur ← match getMember p trackId with
        | Found arr => Normal (JsSet.fromArray arr)
        | FromPrototype _ => Throw TypeError
        | Missing => Normal (JsSet.fromArray [])
        end;
  let cur' := if JsSet.has msId cur then JsSet.delete msId cur
              else JsSet.add msId cur in
  mret (<[trackId := cur']> p).

(** [!!(progress[t.id]?.includes(m.id))], the state of a check box. *)
Definition done (trackId msId : string) (p : gmap string (list string))
  : Completion bool :=
  match getMember p trackId with
  | Found arr => Normal (includes msId arr)
  | FromPrototype _ => Throw TypeError
  | Missing => Normal false
  end.

End LearningTracks.

(** ** Comments ([Comments]) *)

Module Comment.
Record t := mk { id : Z; name : string; text : string; date : string }.
End Comment.

Module Comments.

(** The cells of the component and the messages it showed. *)
Record State := {
  items : list Comment.t;
  name : string;
  text : string;
  alerts : list string
}.

(** [`aw:comments:${slug}`] *)
Definition key (slug : string) : string := "aw:comments:" +:+ slug.

Definition add (clk : Clock) (st : State) : State :=
  if negb (Js.truthy (Js.trim (name st))) || negb (Js.truthy (Js.trim (text st)))
  then {| items := items st; name := name st; text := text st;
          alerts := alerts st ++ ["Please add your name and comment."] |}
  else
    let item := Comment.mk (now clk) (Js.trim (name st)) (Js.trim (text st))
                  (isoNow clk) in
    {| items := item :: items st; name := name st; text := "";
       alerts := alerts st |}.

End Comments.

(** ** Photo story ([PhotoStory]) *)

Module PhotoStory.

(** [(idx-1+items.length)%items.length] and [(idx+1)%items.length], for a
    gallery of [len] pictures; [%] is the remainder of the truncating
    division. *)
Definition previous (len idx : Z) : Z := Z.rem (idx - 1 + len) len.
Definition next (len idx : Z) : Z := Z.rem (idx + 1) len.

(** [items.length] in the source. *)
Definition itemsLength : Z := 3.

End PhotoStory.

(** ** Values used to run the definitions above *)

(** The texts one engine prints for the members of [Object.prototype]. *)
Definition sampleEngine : Engine :=
  {| memberText key :=
       if String.eqb key "__proto__" then "[object Object]"
       else if String.eqb key "constructor" then "function Object() { [native code] }"
       else "function " +:+ key +:+ "() { [native code] }" |}.

(** A valid draft is one [submit] accepts. *)
Definition validForm (f : Form.t) : Prop :=
  Form.name f <> "" /\ Form.email f <> "" /\ Form.title f <> ""
  /\ Form.body f <> "" /\ Form.agree f = true.

(** What holds of every submission [submit] queues. *)
Definition wellFormedPending (s : Submission.t) : Prop :=
  Submission.status s = "pending" /\ validForm (Submission.form s).

(** ** Shapes of strings *)

Fixpoint lastChar (s : string) : option ascii :=
  match s with
  | EmptyString => None
  | String c s' =>
      match lastChar s' with
      | Some d => Some d
      | None => Some c
      end
  end.

Definition endsWithSpace (s : string) : bool :=
  match lastChar s with
  | Some c => Js.isSpace c
  | None => false
  end.

(** No white space at either end. *)
Definition Trimmed (s : string) : Prop :=
  startsWithSpace s = false /\ endsWithSpace s = false.

(** Nothing but white space (the empty string included). *)
Definition Blank (s : string) : Prop := allChars Js.isSpace s = true.

Definition notComma (c : ascii) : bool := negb (Ascii.eqb c ",").

Definition notMarkup (c : ascii) : bool := negb (isMarkup c).

(** The text of a rendered piece, and the text a list of pieces shows. *)
Definition renderedText (r : Rendered) : string :=
  match r with
  | Span _ part => part
  | Fragment part => part
  end.

Definition joinAll (pieces : list string) : string :=
  fold_right String.append EmptyString pieces.

(** [s.slice(k)] *)
Fixpoint strDrop (k : nat) (s : string) : string :=
  match k, s with
  | O, _ => s
  | Datatypes.S k', String _ s' => strDrop k' s'
  | Datatypes.S _, EmptyString => EmptyString
  end.

(** A comment box with a name typed in and a text padded with white space. *)
Definition draftComment : Comments.State :=
  {| Comments.items := []; Comments.name := " Ada ";
     Comments.text := "  Nice sherds!" +:+ nl; Comments.alerts := [] |}.

Definition blankComment : Comments.State :=
  {| Comments.items := []; Comments.name := "Ada";
     Comments.text := "   "; Comments.alerts := [] |}.

(** The milestones ticked on a track; none when the track has no entry. *)
Definition ticked (p : gmap string (list string)) (trackId : string) : list string :=
  default [] (p !! trackId).

(** Progress with one milestone of the first track ticked, the entry
    written by hand with a repetition. *)
Definition someProgress : gmap string (list string) :=
  <["foundations" := ["methods"; "methods"; "dating"]]> ∅.

Definition someLikes : gmap string LikeValue :=
  <["digital-archaeology" := Num 41]> ∅.

(** * The specification's words for reading time and search *)

(** ** Splitting at runs of white space *)

Definition notSpace (c : ascii) : bool := negb (Js.isSpace c).

(** [Pieces first b l]: the text [b] is the pieces [l] with a run of white
    space between each two.  No piece holds white space, every run is
    non-empty and made of white space only, and a piece followed by a run
    is not empty, except the very first one ([first]): so each run is a
    whole run of [b], and only a run at the start or at the end of [b]
    leaves an empty piece there. *)
Inductive Pieces : bool -> string -> list string -> Prop :=
| pieces_one first p :
    allChars notSpace p = true ->
    Pieces first p [p]
| pieces_cons first p sep b l :
    allChars notSpace p = true ->
    (first = false -> p <> "") ->
    sep <> "" -> allChars Js.isSpace sep = true ->
    Pieces false b l ->
    Pieces first (p +:+ sep +:+ b) (p :: l).

(** "Word count = split on whitespace runs": [pieces] is the split of [b]. *)
Definition SplitAtSpaceRuns (b : string) (pieces : list string) : Prop :=
  Pieces true b pieces.

(** Puts [p] in front of the first piece. *)
Definition prependHead (p : string) (pieces : list string) : list string :=
  match pieces with
  | [] => [p]
  | h :: t => (p +:+ h) :: t
  end.

(** A text of [n] words [w], one space between two. *)
Fixpoint wordsText (n : nat) : string :=
  match n with
  | O => ""
  | Datatypes.S O => "w"
  | Datatypes.S k => "w " +:+ wordsText k
  end.

(** ** Fuzzy search

    The matcher behind [fuse.search] is the library fuse.js; only its call
    and its options ([keys: ['title','tags','body']], [threshold: 0.33])
    are in the source.  The specification (4.3) asks for the posts that
    match the query, ranked by relevance; title, tags and body all
    contribute to a match; matching is fuzzy, tolerating typos and partial
    terms, with a fixed similarity threshold. *)

(** Modelled from the spec: the fuzzy comparison of fuse.js is not under
    src/.  "Fuzzy (tolerates typos/partial terms)": [errorsAt q t] is the
    least number of edits (a character replaced, a character of the query
    left out, a character of the text skipped) that turn [q] into a
    beginning of [t]. *)
Fixpoint errorsAt (q : string) : string -> nat :=
  match q with
  | EmptyString => fun _ => 0%nat
  | String c q' =>
      fix here (t : string) : nat :=
        match t with
        | EmptyString => Datatypes.S (String.length q')
        | String d t' =>
            Nat.min ((if Ascii.eqb c d then 0 else 1) + errorsAt q' t')
              (Nat.min (1 + errorsAt q' t) (1 + here t'))
        end
  end.

(** The endings of a text, the text itself first and the empty one last. *)
Fixpoint suffixes (t : string) : list string :=
  t :: match t with
       | EmptyString => []
       | String _ t' => suffixes t'
       end.

(** [errorsAt (String c q')] for every ending of [t], computed from the
    same for [q'] ([prev]); [m] is the length of [q']. *)
Fixpoint stepRow (c : ascii) (m : nat) (t : string) (prev : list nat) : list nat :=
  match t with
  | EmptyString => [Datatypes.S m]
  | String d t' =>
      match prev with
      | a :: prevTail =>
          let rest := stepRow c m t' prevTail in
          match prevTail, rest with
          | b :: _, r :: _ =>
              Nat.min ((if Ascii.eqb c d then 0 else 1) + b)
                (Nat.min (1 + a) (1 + r)) :: rest
          | _, _ => rest
          end
      | [] => []
      end
  end.

(** [errorsAt q] for every ending of [t], one character of the query at a
    time. *)
Fixpoint errorRow (q : string) (t : string) : list nat :=
  match q with
  | EmptyString => List.map (fun _ => 0%nat) (suffixes t)
  | String c q' => stepRow c (String.length q') t (errorRow q' t)
  end.

(** Modelled from the spec: the scoring of a field by fuse.js is not under
    src/.  "Tolerates partial terms": the query may stand anywhere in the
    field, and the field counts the errors of the best place. *)
Definition fieldErrors (q t : string) : nat :=
  fold_right Nat.min (String.length q) (errorRow q t).

(** Modelled from the spec: the scoring of an entry by fuse.js is not under
    src/.  "Indexed fields: title, tags, body; all three contribute to a
    match": a post counts the errors of its best field. *)
Definition postErrors (q : string) (p : Post.t) : nat :=
  fold_right Nat.min (fieldErrors q (Post.title p))
    (fieldErrors q (Post.body p) :: List.map (fieldErrors q) (Post.tags p)).

(** Modelled from the spec: the threshold test of fuse.js is not under
    src/.  "A fixed similarity threshold", [threshold: 0.33] in the
    source: the errors allowed are at most 0.33 of the length of the
    query. *)
Definition withinThreshold (q : string) (errors : nat) : bool :=
  (100 * errors <=? 33 * String.length q)%nat.

Definition matchesQuery (q : string) (p : Post.t) : bool :=
  withinThreshold q (postErrors q p).

(** The posts with their positions in the collection. *)
Fixpoint indexFrom (i : nat) (C : list Post.t) : list FuseResult :=
  match C with
  | [] => []
  | p :: C' => {| item := p; refIndex := i |} :: indexFrom (Datatypes.S i) C'
  end.

(** Ranking: fewer errors first. *)
Definition moreRelevant (q : string) (r1 r2 : FuseResult) : Prop :=
  (postErrors q (item r1) <= postErrors q (item r2))%nat.

#[global] Instance moreRelevant_dec (q : string) : RelDecision (moreRelevant q).
Proof. intros r1 r2. unfold moreRelevant. apply _. Defined.

(** Modelled from the spec: [search] of fuse.js is not under src/.  "Return
    the subset of Posts matching the query, ranked by relevance": the
    entries within the threshold, fewer errors first. *)
Definition specSearch (C : list Post.t) (q : string) : list FuseResult :=
  merge_sort (moreRelevant q)
    (List.filter (fun r => matchesQuery q (item r)) (indexFrom 0 C)).

(** Modelled from the spec: the matcher [new Fuse(...)] of fuse.js is not
    under src/; this is the one of the definitions above. *)
Definition specFuse : Fuse := {| search := specSearch |}.

(** [q] stands in [t] as it is. *)
Definition Occurs (q t : string) : Prop :=
  exists pre post, t = pre +:+ q +:+ post.

(** * Properties *)

(** ** Bookmarks *)

Lemma includes_app x l1 l2 : includes x (l1 ++ l2) = includes x l1 || includes x l2.
Proof. unfold includes. apply existsb_app. Qed.

Lemma includes_remove x s l :
  includes x (List.filter (fun y => negb (String.eqb y s)) l)
  = includes x l && negb (String.eqb x s).
Proof.
  unfold includes. induction l as [|y l IH]; simpl; [reflexivity|].
  destruct (String.eqb_spec y s) as [->|Hys]; simpl.
  - rewrite IH. destruct (String.eqb_spec x s) as [->|Hxs]; simpl.
    + now rewrite andb_false_r.
    + now rewrite andb_true_r.
  - rewrite IH. destruct (String.eqb_spec x y) as [->|Hxy]; simpl; [|reflexivity].
    destruct (String.eqb_spec y s); [contradiction|reflexivity].
Qed.

Lemma includes_In x l : includes x l = true <-> In x l.
Proof.
  unfold includes. rewrite existsb_exists. split.
  - intros (y & Hy & Heq). apply String.eqb_eq in Heq. now subst.
  - intros Hx. exists x. split; [assumption|apply String.eqb_refl].
Qed.

Lemma toggleBookmarkList_includes (s x : string) (bm : list string) :
  includes x (toggleBookmarkList s bm)
  = if String.eqb x s then negb (includes s bm) else includes x bm.
Proof.
  unfold toggleBookmarkList. destruct (includes s bm) eqn:Hs.
  - rewrite includes_remove.
    destruct (String.eqb_spec x s) as [->|Hxs]; cbn.
    + apply andb_false_r.
    + apply andb_true_r.
  - rewrite includes_app. cbn [includes existsb].
    destruct (String.eqb_spec x s) as [->|Hxs]; cbn.
    + apply orb_true_r.
    + now rewrite orb_false_r.
Qed.

(** C7: toggling the same slug twice leaves the membership of every slug as
    it was; one toggle adds the slug when absent and removes it when
    present. *)
Theorem toggleBookmark_twice (a : App) (s x : string) :
  includes x (bookmarks (toggleBookmark s (toggleBookmark s a)))
    = includes x (bookmarks a)
  /\ includes s (bookmarks (toggleBookmark s a)) = negb (includes s (bookmarks a)).
Proof.
  destruct a as [ps bm subs q pg f al]. cbn [toggleBookmark setBookmarks bookmarks].
  rewrite !toggleBookmarkList_includes, String.eqb_refl. split; [|reflexivity].
  destruct (String.eqb_spec x s) as [->|Hxs]; [|reflexivity].
  apply negb_involutive.
Qed.

(** ** Reading time *)

Lemma roundDiv_nearest (n : Z) :
  (220 * roundDiv n 220 - 110 <= n < 220 * roundDiv n 220 + 110)%Z.
Proof.
  unfold roundDiv.
  pose proof (Z.div_mod (2 * n + 220) (2 * 220) ltac:(lia)) as Hdm.
  pose proof (Z.mod_pos_bound (2 * n + 220) (2 * 220) ltac:(lia)) as Hb.
  lia.
Qed.

Lemma splitSpaceRuns_nonempty r s : Js.splitSpaceRuns r s <> [].
Proof.
  revert r. induction s as [|c s IH]; intros r; simpl; [discriminate|].
  destruct (Js.isSpace c).
  - destruct r; [apply IH|discriminate].
  - specialize (IH false). destruct (Js.splitSpaceRuns false s); [contradiction|discriminate].
Qed.

(** ** Submission workflow *)

Lemma truthy_false_iff (s : string) : Js.truthy s = false <-> s = "".
Proof. destruct s; simpl; split; congruence. Qed.

Lemma truthy_true_iff (s : string) : Js.truthy s = true <-> s <> "".
Proof. destruct s; simpl; split; congruence. Qed.

(** C3: with a required field empty or the box unticked, [submit] leaves
    the pending list and the draft as they are; with every required field
    filled and the box ticked, it puts exactly one new pending submission,
    whose id is the current time, in front of the list and clears the
    draft. *)
Theorem submit_validates (clk : Clock) (a : App) :
  let f := form a in
  (Form.name f = "" \/ Form.email f = "" \/ Form.title f = ""
   \/ Form.body f = "" \/ Form.agree f = false ->
   submissions (submit clk a) = submissions a
   /\ form (submit clk a) = form a
   /\ posts (submit clk a) = posts a)
  /\
  (Form.name f <> "" /\ Form.email f <> "" /\ Form.title f <> ""
   /\ Form.body f <> "" /\ Form.agree f = true ->
   submissions (submit clk a)
     = Submission.mk (now clk) f "pending" (isoNow clk) :: submissions a
   /\ form (submit clk a) = Form.blank
   /\ posts (submit clk a) = posts a).
Proof.
  intros f. unfold submit. fold f. split.
  - intros Hbad.
    assert (negb (Js.truthy (Form.name f)) || negb (Js.truthy (Form.email f))
            || negb (Js.truthy (Form.title f)) || negb (Js.truthy (Form.body f))
            || negb (Form.agree f) = true) as ->.
    { destruct Hbad as [E|[E|[E|[E|E]]]]; rewrite E; cbn;
        rewrite ?orb_true_r; reflexivity. }
    repeat split.
  - intros (Hn & He & Ht & Hb & Hag).
    apply truthy_true_iff in Hn, He, Ht, Hb.
    rewrite Hn, He, Ht, Hb, Hag. cbn. repeat split.
Qed.

Lemma submit_validates_witness :
  submissions (submit noon (setForm potteryForm init)) = [potterySubmission]
  /\ form (submit noon (setForm potteryForm init)) = Form.blank
  /\ submissions (submit noon init) = [].
Proof.
  destruct (submit_validates noon (setForm potteryForm init)) as [_ Hok].
  destruct (submit_validates noon init) as [Hbad _].
  destruct Hok as (Hs & Hf & _).
  { cbn. split; [discriminate|]. split; [discriminate|].
    split; [discriminate|]. split; [discriminate|reflexivity]. }
  destruct Hbad as (Hs' & _).
  { left. reflexivity. }
  split; [exact Hs|]. split; [exact Hf|exact Hs'].
Defined.

Lemma removeSubmission_gone (s x : Submission.t) (l : list Submission.t) :
  In x (removeSubmission s l) -> Submission.id x <> Submission.id s.
Proof.
  unfold removeSubmission. rewrite filter_In. intros [_ Hne].
  apply negb_true_iff, Z.eqb_neq in Hne. exact Hne.
Qed.

Lemma parseTags_pipeline (raw : string) :
  parseTags raw = List.filter Js.truthy (List.map Js.trim (Js.splitChar "," raw)).
Proof. unfold parseTags. destruct raw; reflexivity. Qed.

Lemma or_spec (x y : string) :
  (x = "" -> Js.or x y = y) /\ (x <> "" -> Js.or x y = x).
Proof. destruct x; cbn; split; congruence. Qed.

(** C2: the post [approve] puts in front of the corpus has the slug of the
    title, or ["submission-" + id] exactly when that slug is empty; its tags
    are the comma-separated entries, trimmed, without the empty ones; its
    hero is the placeholder when no cover was given; its minutes are the
    reading-time estimate of the submitted body. *)
Theorem approve_builds_post (clk : Clock) (s : Submission.t) (a : App) :
  let p := postOf clk s in
  posts (approve clk s a) = p :: posts a
  /\ (slugify (Submission.title s) = "" ->
      Post.slug p = ("submission-" ++ Js.numToString (Submission.id s))%string)
  /\ (slugify (Submission.title s) <> "" ->
      Post.slug p = slugify (Submission.title s))
  /\ Post.tags p
     = List.filter (fun t => negb (String.eqb t ""))
         (List.map Js.trim (Js.splitChar "," (Submission.tags s)))
  /\ (Submission.tags s = "" -> Post.tags p = [])
  /\ (Submission.cover s = "" -> Post.hero p = placeholderHero)
  /\ (Submission.cover s <> "" -> Post.hero p = Submission.cover s)
  /\ Post.minutes p = estimateMinutes (Submission.body s)
  /\ (Submission.title s = "Pottery 101!" -> Post.slug p = "pottery-101")
  /\ (Submission.title s = "!!!" ->
      Post.slug p = ("submission-" ++ Js.numToString (Submission.id s))%string).
Proof.
  intros p. subst p. cbn [postOf Post.slug Post.tags Post.hero Post.minutes].
  unfold deriveSlug.
  repeat match goal with |- _ /\ _ => split end.
  - reflexivity.
  - apply or_spec.
  - apply or_spec.
  - rewrite parseTags_pipeline. apply filter_ext. intros [|c t]; reflexivity.
  - intros ->. reflexivity.
  - apply or_spec.
  - apply or_spec.
  - reflexivity.
  - intros ->. reflexivity.
  - intros ->. reflexivity.
Qed.

Example approve_pottery_101 :
  postOf noon introSubmission
  = Post.mk "pottery-101" "Pottery 101!" "A. Reader" "2025-09-01" placeholderHero []
      3 ("# Pottery 101!" +:+ nl +:+ nl +:+ "Text.")
  /\ submissions (approve noon introSubmission
                   (setSubmissions (fun _ => [introSubmission; bangSubmission]) init))
     = [bangSubmission].
Proof. split; vm_compute; reflexivity. Qed.

Lemma approve_builds_post_witness :
  Post.slug (postOf noon bangSubmission) = "submission-42"
  /\ Post.hero (postOf noon bangSubmission) = placeholderHero
  /\ Post.tags (postOf noon bangSubmission) = ["survey"; "3D"]
  /\ Post.slug (postOf noon potterySubmission) = "pottery-through-ages"
  /\ Post.tags (postOf noon potterySubmission) = [].
Proof.
  pose proof (approve_builds_post noon bangSubmission init) as H1.
  pose proof (approve_builds_post noon potterySubmission init) as H2.
  cbv zeta in H1, H2.
  destruct H1 as (_ & Hs & _ & Ht & _ & Hh & _ & _ & _ & Hb).
  destruct H2 as (_ & _ & Hs2 & _ & Ht2 & _).
  split; [rewrite Hb; reflexivity|].
  split; [apply Hh; reflexivity|].
  split; [rewrite Ht; reflexivity|].
  split; [rewrite Hs2; [reflexivity|discriminate]|].
  apply Ht2. reflexivity.
Defined.

(** ** Slugs of the corpus *)

Lemma slugCount_In (sl : string) (ps : list Post.t) :
  (0 < slugCount sl ps)%nat <-> In sl (List.map Post.slug ps).
Proof.
  unfold slugCount. induction ps as [|p ps IH]; simpl.
  - split; [lia|tauto].
  - destruct (String.eqb_spec (Post.slug p) sl) as [E|E]; simpl.
    + split; [auto|lia].
    + rewrite IH. split; [auto|]. intros [H|H]; [contradiction|assumption].
Qed.

Lemma slugCount_NoDup (sl : string) (ps : list Post.t) :
  List.NoDup (List.map Post.slug ps) -> (slugCount sl ps <= 1)%nat.
Proof.
  induction ps as [|p ps IH]; simpl; intros Hnd; [unfold slugCount; simpl; lia|].
  inversion Hnd as [|x l Hnotin Hnd']; subst.
  specialize (IH Hnd'). unfold slugCount in *. simpl.
  destruct (String.eqb_spec (Post.slug p) sl) as [E|E]; simpl; [|assumption].
  subst sl.
  assert (~ (0 < slugCount (Post.slug p) ps)%nat) as Hz
    by (rewrite slugCount_In; assumption).
  unfold slugCount in Hz. lia.
Qed.

(** The session of [potterySession] is one a visitor can run, and it ends
    with two posts under the slug [pottery-through-ages]: the claim of C1
    fails there. *)
Lemma slug_uniqueness_counterexample :
  reachable potterySession
  /\ Post.slug (postOf noon potterySubmission) = "pottery-through-ages"
  /\ slugCount "pottery-through-ages" (posts potterySession) = 2%nat
  /\ ~ List.NoDup (slugs potterySession).
Proof.
  split; [|split; [reflexivity|split; [reflexivity|]]].
  - unfold reachable, potterySession.
    eapply rtc_l; [apply (step_setForm potteryForm)|].
    eapply rtc_l; [apply (step_submit noon)|].
    eapply rtc_l; [|apply rtc_refl].
    apply (step_approve noon potterySubmission). left. reflexivity.
  - intros Hnd. apply (slugCount_NoDup "pottery-through-ages") in Hnd.
    vm_compute in Hnd. lia.
Qed.

(** C1 (amended): after [approve], nothing with the approved id is pending
    and the new post, carrying the derived slug, is in front of the corpus;
    the corpus holds that slug once more than before.  So the slug is there
    exactly once, and distinct slugs stay distinct, when no post had it
    before; when one had, the corpus now holds it more than once. *)
Theorem approve_slug_count (clk : Clock) (s : Submission.t) (a : App) :
  let a' := approve clk s a in
  (forall x, In x (submissions a') -> Submission.id x <> Submission.id s)
  /\ posts a' = postOf clk s :: posts a
  /\ Post.slug (postOf clk s) = deriveSlug s
  /\ slugCount (deriveSlug s) (posts a') = Datatypes.S (slugCount (deriveSlug s) (posts a))
  /\ (~ In (deriveSlug s) (slugs a) -> slugCount (deriveSlug s) (posts a') = 1%nat)
  /\ (~ In (deriveSlug s) (slugs a) -> List.NoDup (slugs a) -> List.NoDup (slugs a'))
  /\ (In (deriveSlug s) (slugs a) -> ~ List.NoDup (slugs a')).
Proof.
  intros a'. subst a'. destruct a as [ps bm subs q pg f al].
  unfold approve, slugs.
  cbn [setPage setSubmissions addPost setPosts posts submissions].
  assert (Hcount : slugCount (deriveSlug s) (postOf clk s :: ps)
                   = Datatypes.S (slugCount (deriveSlug s) ps)).
  { unfold slugCount. cbn [List.filter postOf Post.slug].
    rewrite String.eqb_refl. reflexivity. }
  split; [intros x; apply removeSubmission_gone|].
  split; [reflexivity|]. split; [reflexivity|]. split; [exact Hcount|].
  split; [|split].
  - intros Hfresh. rewrite Hcount. f_equal.
    assert (~ (0 < slugCount (deriveSlug s) ps)%nat) by (rewrite slugCount_In; exact Hfresh).
    lia.
  - intros Hfresh Hnd. cbn [List.map postOf Post.slug].
    constructor; assumption.
  - intros Hin Hnd. cbn [List.map postOf Post.slug] in Hnd.
    inversion Hnd; subst. contradiction.
Qed.

Lemma approve_slug_count_witness :
  slugCount "submission-42" (posts (approve noon bangSubmission init)) = 1%nat
  /\ List.NoDup (slugs (approve noon bangSubmission init))
  /\ ~ List.NoDup (slugs (approve noon potterySubmission init)).
Proof.
  pose proof (approve_slug_count noon bangSubmission init) as H1.
  pose proof (approve_slug_count noon potterySubmission init) as H2.
  cbv zeta in H1, H2.
  destruct H1 as (_ & _ & _ & _ & Hone & Hnd & _).
  destruct H2 as (_ & _ & _ & _ & _ & _ & Hdup).
  assert (Hfresh : ~ In (deriveSlug bangSubmission) (slugs init)).
  { vm_compute. intros [E|[E|[E|[]]]]; discriminate E. }
  split; [exact (Hone Hfresh)|]. split.
  - apply (Hnd Hfresh). vm_compute.
    repeat (constructor; [cbn; intros H; repeat destruct H as [H|H]; try discriminate H; exact H|]).
    constructor.
  - apply Hdup. vm_compute. left. reflexivity.
Defined.

(** ** Search and tag filter *)

Section SearchFacts.
Context `{Fuse}.

Lemma shown_sublist (tag : option string) (l : list Post.t) : sublist (shown tag l) l.
Proof.
  unfold shown. destruct tag as [t|]; [|reflexivity].
  destruct (Js.truthy t); [|reflexivity].
  induction l as [|p l IH]; cbn; [constructor|].
  destruct (hasTag t p); now constructor.
Qed.

(** C10: with a query and a chosen tag, the listing is the ranked search
    result filtered to the posts whose tags include the tag, in the order
    of the ranking; with no tag chosen it is the search result itself. *)
Theorem blogListing_search_then_filter (a : App) :
  blogListing None a = filtered (posts a) (query a)
  /\ (forall t, t <> "" ->
      blogListing (Some t) a = List.filter (hasTag t) (filtered (posts a) (query a)))
  /\ (forall t, t <> "" -> query a <> "" ->
      blogListing (Some t) a
      = List.filter (hasTag t) (List.map item (search (posts a) (query a))))
  /\ (forall t p, t <> "" ->
      In p (blogListing (Some t) a)
      <-> In p (filtered (posts a) (query a)) /\ In t (Post.tags p))
  /\ (forall tag, sublist (blogListing tag a) (filtered (posts a) (query a))).
Proof.
  unfold blogListing. split; [reflexivity|]. split; [|split; [|split]].
  - intros t Ht. cbn. apply truthy_true_iff in Ht. now rewrite Ht.
  - intros t Ht Hq. cbn. apply truthy_true_iff in Ht, Hq. rewrite Ht.
    unfold filtered. now rewrite Hq.
  - intros t p Ht. cbn. apply truthy_true_iff in Ht. rewrite Ht.
    rewrite filter_In. unfold hasTag. now rewrite includes_In.
  - intros tag. apply shown_sublist.
Qed.

End SearchFacts.

Lemma prefixScan_sound (C : list Post.t) (q : string) (i : nat) (r : FuseResult) :
  In r (prefixScan i C q) ->
  (i <= refIndex r)%nat /\ nth_error C (refIndex r - i) = Some (item r).
Proof.
  revert i. induction C as [|p C IH]; intros i; cbn; [tauto|].
  assert (Hrest : In r (prefixScan (Datatypes.S i) C q) ->
                  (i <= refIndex r)%nat
                  /\ nth_error (p :: C) (refIndex r - i) = Some (item r)).
  { intros Hin. apply IH in Hin as [Hle Hnth]. split; [lia|].
    replace (refIndex r - i)%nat with (Datatypes.S (refIndex r - Datatypes.S i)) by lia.
    exact Hnth. }
  destruct (String.prefix q (Post.title p)); [|exact Hrest].
  intros [<-|Hin]; [|exact (Hrest Hin)].
  cbn. rewrite Nat.sub_diag. split; [lia|reflexivity].
Qed.

Lemma prefixFuse_sound : @FuseSound prefixFuse.
Proof.
  intros C q r Hin. apply prefixScan_sound in Hin as [_ Hnth].
  now rewrite Nat.sub_0_r in Hnth.
Qed.

Lemma blogListing_search_then_filter_witness :
  @blogListing prefixFuse (Some "survey") (setQuery "D" init) = List.skipn 2 samplePosts
  /\ @blogListing prefixFuse (Some "gear") (setQuery "D" init) = [].
Proof.
  destruct (@blogListing_search_then_filter prefixFuse (setQuery "D" init))
    as (_ & _ & Hboth & _).
  split.
  - rewrite Hboth; [reflexivity|discriminate|discriminate].
  - rewrite Hboth; [reflexivity|discriminate|discriminate].
Defined.

(** ** Local storage helpers *)

Section LocalStorageFacts.
Context {St V : Type} `{Storage St} `{Json V}.

Lemma loadLS_total (st : St) (key : string) (fallback : V) :
  exists v, loadLS st key fallback = Normal v.
Proof.
  unfold loadLS. destruct (getItem st key) as [[raw|]|e]; cbn.
  - destruct (Js.truthy raw); [|eexists; reflexivity].
    destruct (parse raw); cbn; eexists; reflexivity.
  - eexists; reflexivity.
  - eexists; reflexivity.
Qed.

Lemma saveLS_total (st : St) (key : string) (val : V) :
  exists st', saveLS st key val = Normal st'.
Proof.
  unfold saveLS. destruct (stringify val) as [txt|e]; cbn.
  - destruct (setItem st key (toStringArg txt)); cbn; eexists; reflexivity.
  - eexists; reflexivity.
Qed.

(** C9: [loadLS] never throws; it gives the stored value when the key holds
    text that parses, and the fallback when the key is absent, when its
    text does not parse, or when the storage cannot be read.  [saveLS]
    never throws either, whatever [JSON.stringify] and [setItem] do, so a
    state change followed by its write-through always goes through with
    the new value in memory; and what was saved is what is loaded back. *)
Theorem loadLS_saveLS_fallback (st : St) (key : string) (fallback : V) :
  (exists v, loadLS st key fallback = Normal v)
  /\ (forall raw v, getItem st key = Normal (Some raw) -> raw <> "" ->
        parse raw = Normal v -> loadLS st key fallback = Normal v)
  /\ (getItem st key = Normal None -> loadLS st key fallback = Normal fallback)
  /\ (forall raw e, getItem st key = Normal (Some raw) ->
        parse raw = Throw e -> loadLS st key fallback = Normal fallback)
  /\ (forall e, getItem st key = Throw e -> loadLS st key fallback = Normal fallback)
  /\ (forall val, exists st', saveLS st key val = Normal st')
  /\ (forall val e, stringify val = Throw e -> saveLS st key val = Normal st)
  /\ (forall val txt e, stringify val = Normal txt ->
        setItem st key (toStringArg txt) = Throw e -> saveLS st key val = Normal st)
  /\ (forall f mem, exists st', updateAndPersist key f mem st = Normal (f mem, st'))
  /\ (forall val raw st',
        stringify val = Normal (Some raw) -> setItem st key raw = Normal st' ->
        getItem st' key = Normal (Some raw) -> raw <> "" -> parse raw = Normal val ->
        saveLS st key val = Normal st' /\ loadLS st' key fallback = Normal val).
Proof.
  split; [apply loadLS_total|].
  split; [|split; [|split; [|split]]].
  - intros raw v Hget Hraw Hparse. unfold loadLS. rewrite Hget. cbn.
    apply truthy_true_iff in Hraw. rewrite Hraw, Hparse. reflexivity.
  - intros Hget. unfold loadLS. rewrite Hget. reflexivity.
  - intros raw e Hget Hparse. unfold loadLS. rewrite Hget. cbn.
    destruct (Js.truthy raw); [|reflexivity]. rewrite Hparse. reflexivity.
  - intros e Hget. unfold loadLS. rewrite Hget. reflexivity.
  - split; [intros val; apply saveLS_total|].
    split; [|split; [|split]].
    + intros val e Hs. unfold saveLS. rewrite Hs. reflexivity.
    + intros val txt e Hs Hset. unfold saveLS. rewrite Hs. cbn. rewrite Hset. reflexivity.
    + intros f mem. unfold updateAndPersist.
      destruct (saveLS_total st key (f mem)) as [st' ->]. exists st'. reflexivity.
    + intros val raw st' Hs Hset Hget Hraw Hparse. split.
      * unfold saveLS. rewrite Hs. cbn. rewrite Hset. reflexivity.
      * unfold loadLS. rewrite Hget. cbn.
        apply truthy_true_iff in Hraw. rewrite Hraw, Hparse. reflexivity.
Qed.

End LocalStorageFacts.

Lemma loadLS_saveLS_fallback_witness :
  loadLS darkSaved "aw:dark" true = Normal false
  /\ loadLS emptyStorage "aw:dark" true = Normal true
  /\ loadLS corruptStorage "aw:dark" true = Normal true
  /\ loadLS blockedStorage "aw:dark" true = Normal true
  /\ saveLS fullStorage "aw:dark" false = Normal fullStorage
  /\ saveLS emptyStorage "aw:dark" false = Normal darkSaved.
Proof.
  destruct (loadLS_saveLS_fallback darkSaved "aw:dark" true)
    as (_ & Hread & _).
  destruct (loadLS_saveLS_fallback emptyStorage "aw:dark" true)
    as (_ & _ & Habsent & _ & _ & _ & _ & _ & _ & Hround).
  destruct (loadLS_saveLS_fallback corruptStorage "aw:dark" true)
    as (_ & _ & _ & Hcorrupt & _).
  destruct (loadLS_saveLS_fallback blockedStorage "aw:dark" true)
    as (_ & _ & _ & _ & Hblocked & _).
  destruct (loadLS_saveLS_fallback fullStorage "aw:dark" true)
    as (_ & _ & _ & _ & _ & _ & _ & Hfull & _).
  split; [apply (Hread "false"); [reflexivity|discriminate|reflexivity]|].
  split; [apply Habsent; reflexivity|].
  split; [apply (Hcorrupt "{oops" SyntaxError); reflexivity|].
  split; [apply (Hblocked SecurityError); reflexivity|].
  split; [apply (Hfull false (Some "false") QuotaExceededError); reflexivity|].
  apply (Hround false "false" darkSaved);
    [reflexivity|reflexivity|reflexivity|discriminate|reflexivity].
Defined.

(** ** Table of contents *)

Arguments Js.isSpace : simpl never.
Arguments Js.isLineTerminator : simpl never.
Arguments notLineTerminator : simpl never.

Lemma length_hashes (n : nat) : String.length (hashes n) = n.
Proof. induction n; cbn; congruence. Qed.

Lemma hashes_succ_r (k taken : nat) :
  hashes (taken + Datatypes.S k) = hashes (Datatypes.S taken + k).
Proof. f_equal. lia. Qed.

Lemma append_cons (c : ascii) (s t : string) : String c s +:+ t = String c (s +:+ t).
Proof. reflexivity. Qed.

Lemma append_nil (t : string) : "" +:+ t = t.
Proof. reflexivity. Qed.

Lemma matchText_Some (s t : string) :
  matchText s = Some t <-> s = t /\ t <> "" /\ allChars notLineTerminator t = true.
Proof.
  unfold matchText. fold notLineTerminator.
  destruct (Js.truthy s) eqn:Hs; cbn.
  - destruct (allChars notLineTerminator s) eqn:Hall.
    + split.
      * intros [= <-]. apply truthy_true_iff in Hs. auto.
      * intros (-> & _ & _). reflexivity.
    + split; [discriminate|]. intros (-> & _ & Hall'). congruence.
  - split; [discriminate|]. intros (-> & Hne & _).
    apply truthy_false_iff in Hs. contradiction.
Qed.

(** [\s+(.+)$] in closed form. *)
Lemma matchSpacesText_Some (s t : string) :
  matchSpacesText s = Some t <->
  exists ws, s = ws +:+ t /\ ws <> "" /\ allChars Js.isSpace ws = true
             /\ t <> "" /\ allChars notLineTerminator t = true
             /\ (startsWithSpace t = false \/ String.length t = 1%nat).
Proof.
  split.
  - revert t. induction s as [|c s IH]; intros t; cbn; [discriminate|].
    destruct (Js.isSpace c) eqn:Hc; [|discriminate].
    destruct (matchSpacesText s) as [t'|] eqn:Hrec.
    + intros [= <-]. destruct (IH t' eq_refl) as (ws & -> & _ & Hws & Hrest).
      exists (String c ws). cbn. rewrite Hc, Hws.
      split; [reflexivity|]. split; [discriminate|]. split; [reflexivity|]. exact Hrest.
    + intros Htxt. apply matchText_Some in Htxt as (-> & Hne & Hall).
      exists (String c ""). cbn [String.append allChars]. rewrite Hc.
      split; [reflexivity|]. split; [discriminate|]. split; [reflexivity|].
      split; [exact Hne|]. split; [exact Hall|].
      destruct t as [|c2 t2]; [contradiction|]. cbn in *.
      destruct (Js.isSpace c2); [|left; reflexivity]. right.
      destruct (matchSpacesText t2); [discriminate|].
      destruct t2 as [|c3 t3]; [reflexivity|].
      apply andb_prop in Hall as [_ Hall].
      unfold matchText in Hrec. fold notLineTerminator in Hrec.
      rewrite Hall in Hrec. discriminate.
  - intros (ws & -> & Hne & Hws & Ht & Hall & Hgreedy).
    induction ws as [|c ws IH]; [contradiction|].
    rewrite append_cons. cbn in Hws |- *.
    apply andb_prop in Hws as [Hc Hws]. rewrite Hc.
    destruct ws as [|c' ws'].
    + rewrite append_nil.
      assert (matchSpacesText t = None) as ->.
      { destruct t as [|c2 t2]; [reflexivity|]. cbn in *.
        destruct Hgreedy as [-> | Hlen]; [reflexivity|].
        destruct t2; [|discriminate]. cbn. now destruct (Js.isSpace c2). }
      apply matchText_Some. auto.
    + rewrite IH; [reflexivity|discriminate|exact Hws].
Qed.

Lemma matchSpacesText_starts (s t : string) :
  matchSpacesText s = Some t -> startsWithSpace s = true.
Proof. destruct s as [|c s]; cbn; [discriminate|]. now destruct (Js.isSpace c). Qed.

Lemma hash_not_space (c : ascii) : Ascii.eqb c "#" = true -> Js.isSpace c = false.
Proof. intros Hc. apply Ascii.eqb_eq in Hc. now subst. Qed.

(** [#{1,6}\s+(.+)$] in closed form. *)
Lemma matchMarks_Some (more taken : nat) (s m1 t : string) :
  matchMarks more taken s = Some (m1, t) <->
  exists k rest, (k <= more)%nat /\ (1 <= taken + k)%nat
                 /\ m1 = hashes (taken + k)
                 /\ s = hashes k +:+ rest /\ matchSpacesText rest = Some t.
Proof.
  assert (Hstop : forall taken s m1,
    (if (1 <=? taken)%nat
     then option_map (fun t => (hashes taken, t)) (matchSpacesText s)
     else None) = Some (m1, t)
    <-> (1 <= taken)%nat /\ m1 = hashes taken /\ matchSpacesText s = Some t).
  { clear. intros n u m. destruct (Nat.leb_spec 1 n) as [Hle|Hlt].
    - destruct (matchSpacesText u) as [t'|]; cbn.
      + split; [intros [= <- <-]; auto|]. intros (_ & -> & [= ->]). reflexivity.
      + split; [discriminate|]. intros (_ & _ & [=]).
    - split; [discriminate|]. intros (Hle & _). lia. }
  split.
  - revert taken s. induction more as [|more IH]; intros taken s; cbn [matchMarks].
    + rewrite Hstop. intros (Hle & -> & Hm). exists 0%nat, s.
      rewrite Nat.add_0_r. auto.
    + assert (Hk0 : (1 <= taken)%nat /\ m1 = hashes taken /\ matchSpacesText s = Some t ->
                    exists k rest, (k <= Datatypes.S more)%nat /\ (1 <= taken + k)%nat
                      /\ m1 = hashes (taken + k)
                      /\ s = hashes k +:+ rest /\ matchSpacesText rest = Some t).
      { intros (Hle & -> & Hm). exists 0%nat, s. rewrite Nat.add_0_r.
        split; [lia|]. auto. }
      destruct s as [|c s']; [rewrite Hstop; exact Hk0|].
      destruct (Ascii.eqb c "#") eqn:Hc; [|rewrite Hstop; exact Hk0].
      destruct (matchMarks more (Datatypes.S taken) s') as [r|] eqn:Hrec;
        [|rewrite Hstop; exact Hk0].
      intros [= ->]. apply IH in Hrec as (k & rest & Hk & _ & -> & -> & Hm).
      exists (Datatypes.S k), rest. apply Ascii.eqb_eq in Hc. subst c.
      split; [lia|]. split; [lia|]. split; [symmetry; apply hashes_succ_r|].
      split; [reflexivity|exact Hm].
  - intros (k & rest & Hk & Hone & -> & -> & Hm).
    revert taken k Hk Hone. induction more as [|more IH]; intros taken k Hk Hone.
    + assert (k = 0%nat) as -> by lia. cbn [hashes matchMarks].
      rewrite append_nil. apply Hstop.
      rewrite Nat.add_0_r in *. auto.
    + destruct k as [|k].
      * cbn [hashes]. rewrite append_nil. rewrite Nat.add_0_r in *.
        pose proof (matchSpacesText_starts _ _ Hm) as Hsp.
        destruct rest as [|c rest']; [discriminate|]. cbn in Hsp.
        cbn [matchMarks].
        destruct (Ascii.eqb c "#") eqn:Hc.
        { apply hash_not_space in Hc. congruence. }
        apply Hstop. auto.
      * cbn [hashes]. rewrite append_cons. cbn [matchMarks].
        replace (Ascii.eqb "#" "#") with true by reflexivity.
        rewrite (IH (Datatypes.S taken) k) by lia.
        now rewrite hashes_succ_r.
Qed.

(** The expression of the source matches exactly the heading lines. *)
Lemma headingExec_Some (line m1 txt : string) :
  headingExec line = Some (m1, txt)
  <-> exists n, m1 = hashes n /\ HeadingLine line n txt.
Proof.
  unfold headingExec, HeadingLine. rewrite matchMarks_Some. split.
  - intros (k & rest & Hk & Hone & -> & -> & Hm). cbn in *.
    apply matchSpacesText_Some in Hm as (ws & -> & Hrest).
    exists k. split; [reflexivity|]. exists ws. split; [reflexivity|].
    split; [lia|exact Hrest].
  - intros (n & -> & ws & -> & Hn & Hrest).
    exists n, (ws +:+ txt). split; [lia|]. split; [lia|]. split; [reflexivity|].
    split; [reflexivity|]. apply matchSpacesText_Some. exists ws. auto.
Qed.

Lemma fold_tocStep (lines : list string) (items : list TocItem) :
  fold_left tocStep lines items = items ++ List.concat (List.map lineEntry lines).
Proof.
  revert items. induction lines as [|line lines IH]; intros items; cbn.
  - now rewrite app_nil_r.
  - rewrite IH. unfold lineEntry, tocStep.
    destruct (headingExec line) as [[m1 m2]|]; cbn.
    + now rewrite <- app_assoc.
    + reflexivity.
Qed.

Lemma allChars_removeAll (cls : ascii -> bool) (s : string) :
  allChars (fun c => negb (cls c)) (Js.removeAll cls s) = true.
Proof.
  induction s as [|c s IH]; cbn; [reflexivity|].
  destruct (cls c) eqn:Hc; cbn; [exact IH|]. now rewrite Hc.
Qed.

Lemma allChars_trimStart (p : ascii -> bool) (s : string) :
  allChars p s = true -> allChars p (Js.trimStart s) = true.
Proof.
  induction s as [|c s IH]; cbn; [reflexivity|]. intros Hall.
  destruct (Js.isSpace c); [|exact Hall].
  apply andb_prop in Hall as [_ Hall]. auto.
Qed.

Lemma allChars_trimEnd (p : ascii -> bool) (s : string) :
  allChars p s = true -> allChars p (Js.trimEnd s) = true.
Proof.
  induction s as [|c s IH]; cbn; [reflexivity|]. intros Hall.
  apply andb_prop in Hall as [Hc Hall]. specialize (IH Hall).
  destruct (Js.trimEnd s) as [|c' t].
  - destruct (Js.isSpace c); cbn; [reflexivity|]. now rewrite Hc.
  - cbn in *. now rewrite Hc.
Qed.

Lemma allChars_replaceSpaceRuns (r : bool) (s : string) :
  allChars (fun c => negb (notSlugChar c)) s = true ->
  allChars isSlugChar (Js.replaceSpaceRuns "-" r s) = true.
Proof.
  revert r. induction s as [|c s IH]; intros r; cbn; [reflexivity|]. intros Hall.
  apply andb_prop in Hall as [Hc Hall].
  destruct (Js.isSpace c) eqn:Hsp.
  - destruct r; [auto|]. rewrite append_cons, append_nil.
    cbn [allChars]. rewrite IH by assumption. reflexivity.
  - cbn. rewrite IH by assumption. rewrite andb_true_r.
    unfold notSlugChar in Hc. rewrite negb_involutive, Hsp in Hc.
    unfold isSlugChar. now rewrite orb_false_r in Hc.
Qed.

(** A slug is made of lower-case letters, digits and hyphens only. *)
Lemma slugify_chars (str : string) : allChars isSlugChar (slugify str) = true.
Proof.
  unfold slugify, Js.trim.
  apply allChars_replaceSpaceRuns, allChars_trimEnd, allChars_trimStart,
    allChars_removeAll.
Qed.

Lemma lineEntry_heading (line : string) (n : nat) (txt : string) :
  HeadingLine line n txt ->
  lineEntry line
  = [{| level := n; text := Js.removeAll isBacktick txt;
        id := slugify (Js.removeAll isBacktick txt) |}].
Proof.
  intros Hh. unfold lineEntry, tocStep.
  assert (headingExec line = Some (hashes n, txt)) as ->
    by (apply headingExec_Some; eauto).
  now rewrite length_hashes.
Qed.

Lemma lineEntry_inv (line : string) (it : TocItem) :
  In it (lineEntry line) ->
  exists txt, HeadingLine line (level it) txt
              /\ text it = Js.removeAll isBacktick txt
              /\ id it = slugify (text it).
Proof.
  unfold lineEntry, tocStep.
  destruct (headingExec line) as [[m1 m2]|] eqn:Hex; [|intros []].
  apply headingExec_Some in Hex as (n & -> & Hh).
  intros [<-|[]]. cbn. rewrite length_hashes. eauto.
Qed.

(** The outline of a heading whose text is emphasised keeps the asterisks,
    where the claim of C4 has them stripped. *)
Lemma buildToc_counterexample :
  buildToc "## *Form* & function"
    = [{| level := 2; text := "*Form* & function"; id := "form-function" |}]
  /\ tocAsSpecified "## *Form* & function"
    = [{| level := 2; text := "Form & function"; id := "form-function" |}]
  /\ buildToc "## *Form* & function" <> tocAsSpecified "## *Form* & function".
Proof.
  split; [vm_compute; reflexivity|]. split; [vm_compute; reflexivity|].
  vm_compute. discriminate.
Qed.

(** C4 (amended): the outline lists, in document order, one entry for each
    line made of one to six [#], a run of white space and a text that runs
    to the end of the line without a line terminator, and nothing for any
    other line.  The level of an entry is the number of marks; its text is
    what follows the white space with the backticks taken out (asterisks
    and underscores stay); its id is [slugify] of that text, made of
    lower-case letters, digits and hyphens only.  The heading line
    [## Form & function] gives [{level:2, text:"Form & function",
    id:"form-function"}]. *)
Theorem buildToc_outline (body : string) :
  buildToc body = List.concat (List.map lineEntry (Js.splitChar "010" body))
  /\ (forall line n txt, HeadingLine line n txt ->
        lineEntry line
        = [{| level := n; text := Js.removeAll isBacktick txt;
              id := slugify (Js.removeAll isBacktick txt) |}])
  /\ (forall line, (forall n txt, ~ HeadingLine line n txt) -> lineEntry line = [])
  /\ (forall it, In it (buildToc body) ->
        exists line txt,
          In line (Js.splitChar "010" body)
          /\ HeadingLine line (level it) txt
          /\ text it = Js.removeAll isBacktick txt
          /\ id it = slugify (text it)
          /\ allChars isSlugChar (id it) = true)
  /\ buildToc "## Form & function"
     = [{| level := 2; text := "Form & function"; id := "form-function" |}].
Proof.
  assert (Hflat : buildToc body
                  = List.concat (List.map lineEntry (Js.splitChar "010" body))).
  { unfold buildToc. now rewrite fold_tocStep. }
  split; [exact Hflat|]. split; [exact lineEntry_heading|]. split; [|split].
  - intros line Hnone. unfold lineEntry, tocStep.
    destruct (headingExec line) as [[m1 m2]|] eqn:Hex; [|reflexivity].
    apply headingExec_Some in Hex as (n & _ & Hh). destruct (Hnone _ _ Hh).
  - intros it Hin. rewrite Hflat in Hin.
    apply in_concat in Hin as (entries & Hentries & Hit).
    apply in_map_iff in Hentries as (line & <- & Hline).
    apply lineEntry_inv in Hit as (txt & Hh & Htext & Hid).
    exists line, txt. rewrite Hid at 2. auto using slugify_chars.
  - vm_compute. reflexivity.
Qed.

Lemma buildToc_outline_witness :
  lineEntry "## Form & function"
    = [{| level := 2; text := "Form & function"; id := "form-function" |}]
  /\ lineEntry "##Form" = [].
Proof.
  destruct (buildToc_outline "") as (_ & Hhead & Hnone & _).
  split.
  - apply (Hhead "## Form & function" 2%nat "Form & function").
    exists " ". split; [reflexivity|]. split; [lia|]. split; [discriminate|].
    split; [reflexivity|]. split; [discriminate|]. split; [reflexivity|].
    left. reflexivity.
  - apply Hnone. intros n txt (ws & Heq & Hn & Hws & Hsp & _).
    destruct ws as [|c ws]; [contradiction|].
    destruct n as [|[|[|n]]]; [lia| | |]; cbn [hashes] in Heq;
      rewrite ?append_cons, ?append_nil in Heq.
    + injection Heq as Heq. subst c. vm_compute in Hsp. discriminate Hsp.
    + injection Heq as Heq. subst c. vm_compute in Hsp. discriminate Hsp.
    + discriminate Heq.
Defined.

(** Further lines on which the expression of the source and the wording
    "marks, a space, then text" part ways. *)
Example toc_tab_after_marks :
  buildToc ("##" +:+ String "009" "Form") 
    = [{| level := 2; text := "Form"; id := "form" |}]
  /\ tocAsSpecified ("##" +:+ String "009" "Form") = [].
Proof. split; vm_compute; reflexivity. Qed.

Example toc_tab_in_text :
  buildToc ("## a" +:+ String "009" "b") 
    = [{| level := 2; text := "a" +:+ String "009" "b"; id := "a-b" |}]
  /\ tocAsSpecified ("## a" +:+ String "009" "b")
    = [{| level := 2; text := "a" +:+ String "009" "b"; id := "ab" |}].
Proof. split; vm_compute; reflexivity. Qed.

Example toc_carriage_return :
  buildToc ("## Form" +:+ String "013" "") = [].
Proof. vm_compute. reflexivity. Qed.

Example toc_seven_marks : buildToc "####### Form" = [].
Proof. vm_compute. reflexivity. Qed.

Example toc_sample_post :
  List.map id (buildToc (Post.body (Post.mk "" "" "" "" "" [] 0
    "# Pottery Through the Ages

## Neolithic beginnings
Handmade, low-fired vessels.
### Further reading
- Rice, *Pottery Analysis*
")))
  = ["pottery-through-the-ages"; "neolithic-beginnings"; "further-reading"].
Proof. vm_compute. reflexivity. Qed.

(** ** Glossary hook *)

Lemma toLowerChar_fold (c : ascii) :
  Js.isLower (foldAscii c) = true -> Js.toLowerChar c = foldAscii c.
Proof.
  destruct c as [[] [] [] [] [] [] [] []]; vm_compute;
    intros; first [reflexivity | discriminate].
Qed.

Lemma toLowerChar_unfold (c : ascii) :
  Js.isLower (Js.toLowerChar c) = true -> foldAscii c = Js.toLowerChar c.
Proof.
  destruct c as [[] [] [] [] [] [] [] []]; vm_compute;
    intros; first [reflexivity | discriminate].
Qed.

(** What a lower-case pattern matched reads, in lower case, as the pattern. *)
Lemma prefixCI_lower (pat s m : string) :
  allChars Js.isLower pat = true -> prefixCI pat s = Some m -> Js.toLowerCase m = pat.
Proof.
  revert s m. induction pat as [|p pat IH]; intros s m Hlow; cbn.
  - intros [= <-]. reflexivity.
  - cbn in Hlow. apply andb_prop in Hlow as [Hp Hlow].
    destruct s as [|c s]; [discriminate|].
    destruct (Ascii.eqb_spec (foldAscii c) p) as [Hc|]; [|discriminate].
    destruct (prefixCI pat s) as [m'|] eqn:Hrec; [|discriminate].
    intros [= <-]. cbn. rewrite (IH _ _ Hlow Hrec). f_equal.
    rewrite <- Hc in Hp. rewrite toLowerChar_fold by exact Hp. exact Hc.
Qed.

Lemma prefixCI_length (pat s m : string) :
  prefixCI pat s = Some m -> String.length m = String.length pat.
Proof.
  revert s m. induction pat as [|p pat IH]; intros s m; cbn.
  - intros [= <-]. reflexivity.
  - destruct s as [|c s]; [discriminate|].
    destruct (Ascii.eqb (foldAscii c) p); [|discriminate].
    destruct (prefixCI pat s) as [m'|] eqn:Hrec; [|discriminate].
    intros [= <-]. cbn. f_equal. eauto.
Qed.

Lemma prefixCI_append (pat h u m : string) :
  prefixCI pat h = Some m -> prefixCI pat (h +:+ u) = Some m.
Proof.
  revert h m. induction pat as [|p pat IH]; intros h m; cbn; [auto|].
  destruct h as [|c h]; [discriminate|]. rewrite append_cons.
  destruct (Ascii.eqb (foldAscii c) p); [|discriminate].
  destruct (prefixCI pat h) as [m'|] eqn:Hrec; [|discriminate].
  intros [= <-]. now rewrite (IH _ _ Hrec).
Qed.

Lemma prefixCI_append_None (pat h u : string) :
  prefixCI pat (h +:+ u) = None -> prefixCI pat h = None.
Proof.
  intros Hnone. destruct (prefixCI pat h) as [m|] eqn:Hm; [|reflexivity].
  apply (prefixCI_append _ _ u) in Hm. congruence.
Qed.

Lemma matchTerm_append (h u : string) :
  matchTerm (h +:+ u) = None -> matchTerm h = None.
Proof.
  unfold matchTerm, orElse. intros Hnone.
  destruct (prefixCI "typological" (h +:+ u)) eqn:E1; [discriminate|].
  destruct (prefixCI "sherds" (h +:+ u)) eqn:E2; [discriminate|].
  destruct (prefixCI "chronologies" (h +:+ u)) eqn:E3; [discriminate|].
  apply prefixCI_append_None in E1, E2, E3, Hnone.
  now rewrite E1, E2, E3.
Qed.

Lemma matchTerm_cases (s m : string) :
  matchTerm s = Some m ->
  prefixCI "typological" s = Some m \/ prefixCI "sherds" s = Some m
  \/ prefixCI "chronologies" s = Some m \/ prefixCI "chronologie" s = Some m.
Proof.
  unfold matchTerm, orElse.
  destruct (prefixCI "typological" s); [auto|].
  destruct (prefixCI "sherds" s); [auto|].
  destruct (prefixCI "chronologies" s); auto.
Qed.

(** Every piece of the split is a match or a stretch that begins with none. *)
Lemma splitTerms_pieces (s : string) (k : nat) :
  exists h rest,
    splitTerms k s = h :: rest
    /\ matchTerm h = None
    /\ Forall Piece rest
    /\ (k = 0%nat -> exists u, s = h +:+ u).
Proof.
  revert k. induction s as [|c s IH]; intros k.
  - exists "", []. cbn. split; [reflexivity|]. split; [reflexivity|].
    split; [constructor|]. intros _. exists "". reflexivity.
  - destruct k as [|k]; cbn [splitTerms].
    + destruct (matchTerm (String c s)) as [m|] eqn:Hm.
      * destruct (IH (String.length m - 1)%nat) as (h & rest & -> & Hh & Hrest & _).
        exists "", (m :: h :: rest). split; [reflexivity|]. split; [reflexivity|].
        split; [|intros _; exists (String c s); reflexivity].
        constructor; [left; eauto|]. constructor; [right; exact Hh|exact Hrest].
      * destruct (IH 0%nat) as (h & rest & -> & Hh & Hrest & Hpre).
        destruct (Hpre eq_refl) as (u & ->).
        exists (String c h), rest. cbn [Js.consHead].
        split; [reflexivity|]. split; [|split; [exact Hrest|]].
        -- apply (matchTerm_append _ u). rewrite append_cons. exact Hm.
        -- intros _. exists u. reflexivity.
    + destruct (IH k) as (h & rest & -> & Hh & Hrest & _).
      exists h, rest. split; [reflexivity|]. split; [exact Hh|].
      split; [exact Hrest|]. discriminate.
Qed.

Lemma splitTerms_Piece (text part : string) :
  In part (splitTerms 0 text) -> Piece part.
Proof.
  destruct (splitTerms_pieces text 0) as (h & rest & -> & Hh & Hrest & _).
  intros [<-|Hin]; [right; exact Hh|].
  rewrite Forall_forall in Hrest. apply Hrest. now apply list_elem_of_In.
Qed.

Lemma dropFinalS_spec (x : string) :
  x = dropFinalS x +:+ "s" \/ x = dropFinalS x.
Proof.
  induction x as [|c x IH]; [right; reflexivity|].
  cbn [dropFinalS]. destruct x as [|c' x'].
  - destruct (Ascii.eqb_spec c "s") as [->|]; [left|right]; reflexivity.
  - rewrite append_cons. destruct IH as [IH|IH]; [left|right]; congruence.
Qed.

Lemma dropFinalS_sherds (x : string) : dropFinalS x = "sherds" -> x = "sherdss".
Proof.
  intros Hx. destruct (dropFinalS_spec x) as [E|E]; rewrite Hx in E.
  - exact E.
  - subst x. discriminate Hx.
Qed.

Lemma glossaryGet_sherds (key : string) :
  glossaryGet key = Some (Own sherdsDefinition) -> key = "sherds".
Proof.
  unfold glossaryGet. destruct (glossaryMap !! key) as [d|] eqn:Hget.
  - intros [= ->]. apply elem_of_list_to_map_2 in Hget.
    unfold glossary in Hget. rewrite !elem_of_cons, elem_of_nil in Hget.
    unfold sherdsDefinition in Hget.
    destruct Hget as [E|[E|[E|[]]]]; inversion E; reflexivity.
  - destruct (includes key objectPrototypeKeys); discriminate.
Qed.

Lemma renderPart_Span (p part : string) (v : GlossaryValue) :
  renderPart p = Span v part -> glossaryGet (glossaryKey p) = Some v /\ part = p.
Proof.
  unfold renderPart. destruct (glossaryGet (glossaryKey p)) as [w|]; [|discriminate].
  destruct (truthyValue (Some w)); [|discriminate]. intros [= -> ->]. auto.
Qed.

Lemma lower_sherdss_matches (p : string) :
  Js.toLowerCase p = "sherdss" -> matchTerm p <> None.
Proof.
  intros Hp.
  assert (Hm : exists m, prefixCI "sherds" p = Some m).
  { do 7 (destruct p as [|? p]; [discriminate Hp|]).
    cbn [Js.toLowerCase] in Hp.
    injection Hp as H1 H2 H3 H4 H5 H6 H7 _.
    cbn [prefixCI].
    repeat match goal with
    | E : Js.toLowerChar ?c = _ |- _ =>
        rewrite (toLowerChar_unfold c) by (rewrite E; reflexivity);
        rewrite E; clear E
    end.
    cbn. eauto. }
  destruct Hm as [m Hm]. unfold matchTerm, orElse. rewrite Hm.
  destruct (prefixCI "typological" p); discriminate.
Qed.

(** C6, on the code: a piece the expression matched as [sherds], in any
    letter case, is rendered without a tooltip, because the key looked up
    is [sherd]; no text ever shows the definition of [sherds].  The
    singular [sherd] is left alone too. *)
Theorem sherds_not_annotated :
  textComponent "sherds" = [Fragment ""; Fragment "sherds"; Fragment ""]
  /\ existsb isSpan
       (textComponent
          "> Field note: Sherds dominate most survey assemblages; bring sturdy bags!")
     = false
  /\ (forall s m, prefixCI "sherds" s = Some m -> renderPart m = Fragment m)
  /\ (forall text part,
        ~ In (Span (Own sherdsDefinition) part) (textComponent text))
  /\ textComponent "sherd" = [Fragment "sherd"]
  /\ textComponent "sherdlike" = [Fragment "sherdlike"].
Proof.
  split; [vm_compute; reflexivity|]. split; [vm_compute; reflexivity|].
  split; [|split; [|split; vm_compute; reflexivity]].
  - intros s m Hm. unfold renderPart, glossaryKey.
    rewrite (prefixCI_lower "sherds" s m eq_refl Hm). reflexivity.
  - intros text part Hin. unfold textComponent in Hin.
    apply in_map_iff in Hin as (p & Hrender & Hp).
    apply renderPart_Span in Hrender as [Hget _].
    apply glossaryGet_sherds in Hget. unfold glossaryKey in Hget.
    apply dropFinalS_sherds in Hget.
    apply splitTerms_Piece in Hp as [[s Hs]|Hnone].
    + apply matchTerm_cases in Hs as [Hs|[Hs|[Hs|Hs]]];
        apply prefixCI_lower in Hs; try reflexivity; congruence.
    + exact (lower_sherdss_matches p Hget Hnone).
Qed.

Example text_typological :
  textComponent "key for Typological studies"
  = [Fragment "key for ";
     Span (Own "Classification of artifacts based on shared attributes.") "Typological";
     Fragment " studies"].
Proof. vm_compute. reflexivity. Qed.

Example text_chronologies :
  textComponent "tight chronologies." = [Fragment "tight "; Fragment "chronologies"; Fragment "."]
  /\ textComponent "a chronology" = [Fragment "a chronology"].
Proof. split; vm_compute; reflexivity. Qed.

Example text_constructor :
  textComponent "constructor" = [Span (Inherited "constructor") "constructor"].
Proof. vm_compute. reflexivity. Qed.

(** ** Reading time against the wording of the specification *)

Lemma append_nil_r (s : string) : s +:+ "" = s.
Proof. induction s as [|c s IH]; [reflexivity|]. rewrite append_cons. now rewrite IH. Qed.

Lemma append_assoc (a b c : string) : (a +:+ b) +:+ c = a +:+ (b +:+ c).
Proof. induction a as [|x a IH]; [reflexivity|]. rewrite !append_cons. now rewrite IH. Qed.

Lemma splitSpaceRuns_no_space (r : bool) (p : string) :
  allChars notSpace p = true -> Js.splitSpaceRuns r p = [p].
Proof.
  revert r. induction p as [|c p IH]; intros r; cbn [Js.splitSpaceRuns allChars];
    [reflexivity|].
  intros H. apply andb_prop in H as [Hc Hp]. apply negb_true_iff in Hc.
  rewrite Hc, (IH false Hp). reflexivity.
Qed.

Lemma splitSpaceRuns_skip_run (ws x : string) :
  allChars Js.isSpace ws = true ->
  Js.splitSpaceRuns true (ws +:+ x) = Js.splitSpaceRuns true x.
Proof.
  induction ws as [|c ws IH]; [reflexivity|]. cbn [allChars]. intros H.
  apply andb_prop in H as [Hc Hws]. rewrite append_cons.
  cbn [Js.splitSpaceRuns]. rewrite Hc. auto.
Qed.

Lemma prependHead_consHead (c : ascii) (p : string) (l : list string) :
  l <> [] -> Js.consHead c (prependHead p l) = prependHead (String c p) l.
Proof. destruct l; [contradiction|reflexivity]. Qed.

Lemma splitSpaceRuns_prepend (r : bool) (p x : string) :
  allChars notSpace p = true -> (r = false \/ p <> "") ->
  Js.splitSpaceRuns r (p +:+ x) = prependHead p (Js.splitSpaceRuns false x).
Proof.
  revert r. induction p as [|c p IH]; intros r Hp Hr.
  - destruct Hr as [->|Hne]; [|contradiction]. rewrite append_nil.
    destruct (Js.splitSpaceRuns false x) eqn:E; [|reflexivity].
    now apply splitSpaceRuns_nonempty in E.
  - cbn [allChars] in Hp. apply andb_prop in Hp as [Hc Hp].
    apply negb_true_iff in Hc. rewrite append_cons. cbn [Js.splitSpaceRuns].
    rewrite Hc, (IH false Hp) by now left.
    apply prependHead_consHead, splitSpaceRuns_nonempty.
Qed.

(** The pieces of a text are determined by the text: they are what
    [split(/\s+/)] returns. *)
Lemma Pieces_unique (first : bool) (b : string) (l : list string) :
  Pieces first b l -> Js.splitSpaceRuns (negb first) b = l.
Proof.
  intros HP. induction HP as [first p Hp|first p sep b l Hp Hfirst Hne Hsep HP IH].
  - now apply splitSpaceRuns_no_space.
  - rewrite splitSpaceRuns_prepend; [|exact Hp|].
    + destruct sep as [|d sep]; [contradiction|]. cbn [allChars] in Hsep.
      apply andb_prop in Hsep as [Hd Hsep]. rewrite append_cons.
      cbn [Js.splitSpaceRuns]. rewrite Hd.
      rewrite (splitSpaceRuns_skip_run sep b Hsep). cbn [negb] in IH. rewrite IH.
      cbn [prependHead]. now rewrite append_nil_r.
    + destruct first; [now left|right; now apply Hfirst].
Qed.

Lemma Pieces_cons_char (f f' : bool) (c : ascii) (s : string) (l : list string) :
  Js.isSpace c = false -> Pieces f s l -> Pieces f' (String c s) (Js.consHead c l).
Proof.
  intros Hc HP. destruct HP as [first p Hp|first p sep b l Hp Hfirst Hne Hsep HP].
  - cbn [Js.consHead]. apply pieces_one. cbn [allChars]. unfold notSpace at 1.
    now rewrite Hc, Hp.
  - cbn [Js.consHead]. rewrite <- append_cons.
    apply pieces_cons; [|discriminate|exact Hne|exact Hsep|exact HP].
    cbn [allChars]. unfold notSpace at 1. now rewrite Hc, Hp.
Qed.

Lemma splitSpaceRuns_Pieces (s : string) :
  Pieces true s (Js.splitSpaceRuns false s)
  /\ exists ws b, s = ws +:+ b /\ allChars Js.isSpace ws = true
                  /\ Pieces false b (Js.splitSpaceRuns true s).
Proof.
  induction s as [|c s [IH1 (ws & b & Hs & Hws & IH2)]].
  - split; [apply pieces_one; reflexivity|].
    exists "", "". split; [reflexivity|]. split; [reflexivity|].
    apply pieces_one. reflexivity.
  - cbn [Js.splitSpaceRuns]. destruct (Js.isSpace c) eqn:Hc.
    + split.
      * replace (String c s) with ("" +:+ String c ws +:+ b)
          by (rewrite append_nil, append_cons; congruence).
        apply pieces_cons; [reflexivity|discriminate|discriminate| |exact IH2].
        cbn [allChars]. now rewrite Hc, Hws.
      * exists (String c ws), b. rewrite append_cons, <- Hs.
        split; [reflexivity|]. split; [|exact IH2].
        cbn [allChars]. now rewrite Hc, Hws.
    + split; [now apply (Pieces_cons_char true)|].
      exists "", (String c s). split; [reflexivity|]. split; [reflexivity|].
      now apply (Pieces_cons_char true).
Qed.

Lemma Pieces_no_space (first : bool) (b : string) (l : list string) :
  Pieces first b l -> Forall (fun p => allChars notSpace p = true) l.
Proof. intros HP. induction HP; constructor; auto. Qed.

(** C8: every body has exactly one split at its runs of white space (the
    pieces hold no white space, a non-empty run stands between each two,
    and only a run at either end leaves an empty piece), and it is the one
    the code counts.  With [words] the number of its pieces, the estimate
    is [max(3, r)] for the integer [r] nearest to [words / 220], a half
    rounded up; so it is never below 3. *)
Theorem estimateMinutes_spec (b : string) :
  (exists pieces, SplitAtSpaceRuns b pieces)
  /\ (forall pieces, SplitAtSpaceRuns b pieces ->
        pieces = Js.splitSpaceRuns false b
        /\ Forall (fun p => allChars notSpace p = true) pieces
        /\ let words := Z.of_nat (List.length pieces) in
           (1 <= words)%Z
           /\ exists r, (220 * r - 110 <= words < 220 * r + 110)%Z
                        /\ r = roundDiv words 220
                        /\ estimateMinutes b = Z.max 3 r)
  /\ (3 <= estimateMinutes b)%Z.
Proof.
  split; [exists (Js.splitSpaceRuns false b); apply splitSpaceRuns_Pieces|].
  split; [|unfold estimateMinutes; lia].
  intros pieces Hsplit. pose proof (Pieces_unique _ _ _ Hsplit) as Hfun.
  cbn [negb] in Hfun. split; [now symmetry|].
  split; [exact (Pieces_no_space _ _ _ Hsplit)|]. cbn zeta. split.
  - destruct Hsplit; cbn [List.length]; lia.
  - exists (roundDiv (Z.of_nat (List.length pieces)) 220).
    split; [apply roundDiv_nearest|]. split; [reflexivity|].
    unfold estimateMinutes. now rewrite Hfun.
Qed.

Lemma estimateMinutes_spec_witness :
  ["Rim"; "profiles"; ""] = Js.splitSpaceRuns false ("Rim  profiles" +:+ nl)
  /\ exists r, (220 * r - 110 <= 3 < 220 * r + 110)%Z
               /\ r = roundDiv 3 220
               /\ estimateMinutes ("Rim  profiles" +:+ nl) = Z.max 3 r.
Proof.
  assert (Hsplit : SplitAtSpaceRuns ("Rim  profiles" +:+ nl) ["Rim"; "profiles"; ""]).
  { change ("Rim  profiles" +:+ nl)
      with ("Rim" +:+ "  " +:+ ("profiles" +:+ nl +:+ "")).
    apply pieces_cons; [reflexivity|discriminate|discriminate|reflexivity|].
    apply pieces_cons; [reflexivity|discriminate|discriminate|reflexivity|].
    apply pieces_one. reflexivity. }
  destruct (estimateMinutes_spec ("Rim  profiles" +:+ nl)) as (_ & Hall & _).
  destruct (Hall _ Hsplit) as (Hfun & _ & _ & Hr).
  split; [exact Hfun|exact Hr].
Defined.

Example estimateMinutes_770_words :
  List.length (Js.splitSpaceRuns false (wordsText 770)) = 770%nat
  /\ estimateMinutes (wordsText 770) = 4%Z
  /\ estimateMinutes (wordsText 769) = 3%Z
  /\ estimateMinutes "" = 3%Z.
Proof. repeat split; vm_compute; reflexivity. Qed.

(** ** Search against the wording of the specification *)

Lemma foldmin_le (x : nat) (l : list nat) (y : nat) :
  In y (x :: l) -> (fold_right Nat.min x l <= y)%nat.
Proof.
  induction l as [|z l IH]; cbn.
  - intros [->|[]]. lia.
  - intros [->|[->|H]]; [specialize (IH (or_introl eq_refl))| |specialize (IH (or_intror H))];
      cbn in IH; lia.
Qed.

Lemma foldmin_In (x : nat) (l : list nat) : In (fold_right Nat.min x l) (x :: l).
Proof.
  induction l as [|z l IH]; cbn; [now left|].
  destruct (Nat.min_spec z (fold_right Nat.min x l)) as [[_ ->]|[_ ->]].
  - right; now left.
  - destruct IH as [IH|IH]; [now left|right; now right].
Qed.

Lemma suffixes_self (t : string) : exists rest, suffixes t = t :: rest.
Proof. destruct t; eexists; reflexivity. Qed.

Lemma suffixes_In (s t : string) : In s (suffixes t) <-> exists pre, t = pre +:+ s.
Proof.
  induction t as [|d t IH]; cbn [suffixes].
  - split.
    + intros [<-|[]]. exists "". reflexivity.
    + intros (pre & Hpre). left. destruct pre; [exact Hpre|discriminate Hpre].
  - split.
    + intros [<-|Hin]; [exists ""; reflexivity|].
      apply IH in Hin as (pre & ->). exists (String d pre). reflexivity.
    + intros ([|c pre] & Hpre).
      * left. now rewrite append_nil in Hpre.
      * right. apply IH. rewrite append_cons in Hpre. injection Hpre as _ ->. eauto.
Qed.

Lemma errorsAt_empty (q : string) : errorsAt q "" = String.length q.
Proof. destruct q; reflexivity. Qed.

Lemma errorsAt_cons (c d : ascii) (q t : string) :
  errorsAt (String c q) (String d t)
  = Nat.min ((if Ascii.eqb c d then 0 else 1) + errorsAt q t)
      (Nat.min (1 + errorsAt q (String d t)) (1 + errorsAt (String c q) t)).
Proof. reflexivity. Qed.

Lemma stepRow_spec (c : ascii) (q t : string) :
  stepRow c (String.length q) t (List.map (errorsAt q) (suffixes t))
  = List.map (errorsAt (String c q)) (suffixes t).
Proof.
  induction t as [|d t IH]; [reflexivity|].
  cbn [suffixes List.map stepRow]. rewrite IH.
  destruct (suffixes_self t) as [rest ->]. cbn [List.map].
  now rewrite errorsAt_cons.
Qed.

(** The table computed row by row holds [errorsAt] for every ending. *)
Lemma errorRow_spec (q t : string) :
  errorRow q t = List.map (errorsAt q) (suffixes t).
Proof.
  induction q as [|c q IH]; cbn [errorRow].
  - reflexivity.
  - rewrite IH. apply stepRow_spec.
Qed.

Lemma fieldErrors_least (q t s : string) :
  In s (suffixes t) -> (fieldErrors q t <= errorsAt q s)%nat.
Proof.
  intros Hs. unfold fieldErrors. rewrite errorRow_spec.
  apply foldmin_le. right. now apply in_map.
Qed.

Lemma fieldErrors_attained (q t : string) :
  exists s, In s (suffixes t) /\ fieldErrors q t = errorsAt q s.
Proof.
  unfold fieldErrors. rewrite errorRow_spec.
  destruct (foldmin_In (String.length q) (List.map (errorsAt q) (suffixes t)))
    as [E|Hin].
  - exists "". split; [apply suffixes_In; exists t; now rewrite append_nil_r|].
    now rewrite errorsAt_empty.
  - apply in_map_iff in Hin as (s & E & Hs). eauto.
Qed.

Lemma errorsAt_zero (q t : string) :
  errorsAt q t = 0%nat <-> exists post, t = q +:+ post.
Proof.
  revert t. induction q as [|c q IH]; intros t.
  - split; [intros _; exists t; reflexivity|reflexivity].
  - destruct t as [|d t].
    + split; [discriminate|]. intros (post & Hpost). discriminate Hpost.
    + rewrite errorsAt_cons. split.
      * intros Hz.
        assert (Hk : ((if Ascii.eqb c d then 0 else 1) + errorsAt q t = 0)%nat) by lia.
        destruct (Ascii.eqb_spec c d) as [->|]; [|discriminate Hk].
        apply IH in Hk as (post & ->). exists post. reflexivity.
      * intros (post & Hpost). rewrite append_cons in Hpost.
        injection Hpost as -> ->. rewrite Ascii.eqb_refl.
        assert (errorsAt q (q +:+ post) = 0%nat) as -> by (apply IH; eauto). lia.
Qed.

Lemma fieldErrors_zero (q t : string) : fieldErrors q t = 0%nat <-> Occurs q t.
Proof.
  split.
  - intros Hz. destruct (fieldErrors_attained q t) as (s & Hs & E).
    rewrite Hz in E. symmetry in E. apply errorsAt_zero in E as (post & ->).
    apply suffixes_In in Hs as (pre & ->). exists pre, post. reflexivity.
  - intros (pre & post & ->).
    assert (Hle : (fieldErrors q (pre +:+ q +:+ post) <= errorsAt q (q +:+ post))%nat).
    { apply fieldErrors_least, suffixes_In. eauto. }
    assert (errorsAt q (q +:+ post) = 0%nat) by (apply errorsAt_zero; eauto). lia.
Qed.

(** One wrong, one missing or one extra character costs one error at most. *)
Lemma errorsAt_typo (a b post : string) (x y : ascii) :
  (errorsAt (a +:+ String x b) (a +:+ String y b +:+ post) <= 1)%nat
  /\ (errorsAt (a +:+ b) (a +:+ String y b +:+ post) <= 1)%nat
  /\ (errorsAt (a +:+ String x b) (a +:+ b +:+ post) <= 1)%nat.
Proof.
  assert (Hz : forall u, errorsAt b (b +:+ u) = 0%nat) by (intros u; apply errorsAt_zero; eauto).
  induction a as [|c a (IH1 & IH2 & IH3)].
  - rewrite !append_nil. split; [|split].
    + rewrite append_cons, errorsAt_cons. specialize (Hz post).
      destruct (Ascii.eqb x y); lia.
    + rewrite append_cons. destruct b as [|c b]; [cbn; lia|].
      rewrite errorsAt_cons. specialize (Hz post). lia.
    + destruct (b +:+ post) as [|d u] eqn:E.
      * destruct b; [cbn; lia|discriminate E].
      * rewrite errorsAt_cons. specialize (Hz post). rewrite E in Hz. lia.
  - rewrite !append_cons, !errorsAt_cons, Ascii.eqb_refl.
    rewrite ?append_cons in *. repeat split; lia.
Qed.

Lemma fieldErrors_typo (a b pre post : string) (x y : ascii) :
  (fieldErrors (a +:+ String x b) (pre +:+ a +:+ String y b +:+ post) <= 1)%nat
  /\ (fieldErrors (a +:+ b) (pre +:+ a +:+ String y b +:+ post) <= 1)%nat
  /\ (fieldErrors (a +:+ String x b) (pre +:+ a +:+ b +:+ post) <= 1)%nat.
Proof.
  destruct (errorsAt_typo a b post x y) as (H1 & H2 & H3).
  split; [|split].
  - etransitivity; [apply fieldErrors_least, suffixes_In; eauto|].
    rewrite <- append_assoc in H1. rewrite <- append_assoc. exact H1.
  - etransitivity; [apply fieldErrors_least, suffixes_In; eauto|].
    rewrite <- append_assoc in H2. rewrite <- append_assoc. exact H2.
  - etransitivity; [apply fieldErrors_least, suffixes_In; eauto|].
    rewrite <- append_assoc in H3. rewrite <- append_assoc. exact H3.
Qed.

Lemma postErrors_fields (q : string) (p : Post.t) :
  (postErrors q p <= fieldErrors q (Post.title p))%nat
  /\ (postErrors q p <= fieldErrors q (Post.body p))%nat
  /\ (forall t, In t (Post.tags p) -> (postErrors q p <= fieldErrors q t)%nat)
  /\ (postErrors q p = fieldErrors q (Post.title p)
      \/ postErrors q p = fieldErrors q (Post.body p)
      \/ exists t, In t (Post.tags p) /\ postErrors q p = fieldErrors q t).
Proof.
  unfold postErrors. split; [|split; [|split]].
  - apply foldmin_le. now left.
  - apply foldmin_le. right; now left.
  - intros t Ht. apply foldmin_le. right; right. now apply in_map.
  - destruct (foldmin_In (fieldErrors q (Post.title p))
                (fieldErrors q (Post.body p)
                 :: List.map (fieldErrors q) (Post.tags p))) as [E|[E|Hin]].
    + left. now symmetry.
    + right; left. now symmetry.
    + right; right. apply in_map_iff in Hin as (t & E & Ht). exists t. split; [exact Ht|].
      now symmetry.
Qed.

#[local] Instance moreRelevant_total (q : string) : Total (moreRelevant q).
Proof. intros r1 r2. unfold moreRelevant. lia. Qed.

#[local] Instance moreRelevant_trans (q : string) : Transitive (moreRelevant q).
Proof. intros r1 r2 r3. unfold moreRelevant. lia. Qed.

Lemma map_item_indexFrom (i : nat) (C : list Post.t) :
  List.map item (indexFrom i C) = C.
Proof. revert i. induction C as [|p C IH]; intros i; cbn; [reflexivity|]. now rewrite IH. Qed.

Lemma map_item_filter (f : Post.t -> bool) (l : list FuseResult) :
  List.map item (List.filter (fun r => f (item r)) l) = List.filter f (List.map item l).
Proof.
  induction l as [|r l IH]; cbn; [reflexivity|].
  destruct (f (item r)); cbn; now rewrite IH.
Qed.

Lemma indexFrom_sound (i : nat) (C : list Post.t) (r : FuseResult) :
  In r (indexFrom i C) ->
  (i <= refIndex r)%nat /\ nth_error C (refIndex r - i) = Some (item r).
Proof.
  revert i. induction C as [|p C IH]; intros i; cbn; [tauto|].
  intros [<-|Hin].
  - cbn. rewrite Nat.sub_diag. split; [lia|reflexivity].
  - apply IH in Hin as [Hle Hnth]. split; [lia|].
    replace (refIndex r - i)%nat with (Datatypes.S (refIndex r - Datatypes.S i)) by lia.
    exact Hnth.
Qed.

Lemma StronglySorted_map_item (q : string) (l : list FuseResult) :
  StronglySorted (moreRelevant q) l ->
  StronglySorted (fun p1 p2 => (postErrors q p1 <= postErrors q p2)%nat)
    (List.map item l).
Proof.
  intros Hs. induction Hs as [|r l Hl IH Hall]; cbn; constructor; [exact IH|].
  apply List.Forall_forall. intros p Hp.
  apply in_map_iff in Hp as (r' & <- & Hr').
  exact (proj1 (List.Forall_forall _ _) Hall r' Hr').
Qed.

Lemma specSearch_items (C : list Post.t) (q : string) :
  Permutation (List.map item (specSearch C q)) (List.filter (matchesQuery q) C).
Proof.
  unfold specSearch.
  rewrite <- (map_item_indexFrom 0 C) at 2. rewrite <- map_item_filter.
  apply Permutation_map, merge_sort_Permutation.
Qed.

Lemma specFuse_sound : @FuseSound specFuse.
Proof.
  intros C q r Hin. cbn in Hin. unfold specSearch in Hin.
  apply (Permutation_in _ (merge_sort_Permutation _ _)) in Hin.
  apply filter_In in Hin as [Hin _].
  apply indexFrom_sound in Hin as [_ Hnth]. now rewrite Nat.sub_0_r in Hnth.
Qed.

(** C5: the empty query gives back the corpus itself, whatever the
    matcher.  Any other query gives the items of the matcher's results in
    their order; with the matcher of the specification these are exactly
    the posts of the corpus whose errors are within the threshold (a part
    of the corpus, no post twice that is there once), most relevant
    first.  The errors of a post are those of its best field among title,
    body and tags; the errors of a field are the least number of edits
    that place the query somewhere in it: none exactly when the query
    stands there as it is, at most one for one wrong, missing or extra
    character. *)
Theorem filtered_empty_query (C : list Post.t) :
  (forall F : Fuse,
     @filtered F C "" = C
     /\ Permutation C (@filtered F C "")
     /\ (forall q, q <> "" -> @filtered F C q = List.map item (@search F C q))
     /\ (@FuseSound F -> forall q p, In p (@filtered F C q) -> In p C))
  /\ (forall q, q <> "" ->
        Permutation (@filtered specFuse C q) (List.filter (matchesQuery q) C)
        /\ (forall p, In p (@filtered specFuse C q) -> In p C)
        /\ (forall p, In p (@filtered specFuse C q)
                      <-> In p C
                          /\ (100 * postErrors q p <= 33 * String.length q)%nat)
        /\ StronglySorted (fun p1 p2 => (postErrors q p1 <= postErrors q p2)%nat)
             (@filtered specFuse C q))
  /\ @FuseSound specFuse
  /\ (forall q p,
        (postErrors q p <= fieldErrors q (Post.title p))%nat
        /\ (postErrors q p <= fieldErrors q (Post.body p))%nat
        /\ (forall t, In t (Post.tags p) -> (postErrors q p <= fieldErrors q t)%nat)
        /\ (postErrors q p = fieldErrors q (Post.title p)
            \/ postErrors q p = fieldErrors q (Post.body p)
            \/ exists t, In t (Post.tags p) /\ postErrors q p = fieldErrors q t))
  /\ (forall q t,
        (forall s, In s (suffixes t) -> (fieldErrors q t <= errorsAt q s)%nat)
        /\ (exists s, In s (suffixes t) /\ fieldErrors q t = errorsAt q s)
        /\ (fieldErrors q t = 0%nat <-> Occurs q t))
  /\ (forall a b pre post x y,
        (fieldErrors (a +:+ String x b) (pre +:+ a +:+ String y b +:+ post) <= 1)%nat
        /\ (fieldErrors (a +:+ b) (pre +:+ a +:+ String y b +:+ post) <= 1)%nat
        /\ (fieldErrors (a +:+ String x b) (pre +:+ a +:+ b +:+ post) <= 1)%nat).
Proof.
  split; [|split; [|split; [exact specFuse_sound|split; [exact postErrors_fields|split]]]].
  - intros F. split; [reflexivity|]. split; [reflexivity|]. split.
    + intros q Hq. unfold filtered. apply truthy_true_iff in Hq. now rewrite Hq.
    + intros Hsound q p. unfold filtered.
      destruct (Js.truthy q); cbn; [|tauto].
      rewrite in_map_iff. intros (r & <- & Hr).
      eapply nth_error_In, Hsound, Hr.
  - intros q Hq.
    assert (Hfil : @filtered specFuse C q = List.map item (specSearch C q)).
    { unfold filtered. apply truthy_true_iff in Hq. now rewrite Hq. }
    rewrite Hfil. pose proof (specSearch_items C q) as Hperm.
    assert (Hin : forall p, In p (List.map item (specSearch C q))
                  <-> In p C /\ (100 * postErrors q p <= 33 * String.length q)%nat).
    { intros p. split.
      - intros Hp. apply (Permutation_in _ Hperm), filter_In in Hp as [Hp Hm].
        split; [exact Hp|]. now apply Nat.leb_le in Hm.
      - intros [Hp Hm]. apply (Permutation_in _ (Permutation_sym Hperm)), filter_In.
        split; [exact Hp|]. now apply Nat.leb_le. }
    split; [exact Hperm|]. split; [intros p Hp; now apply Hin in Hp|].
    split; [exact Hin|].
    apply StronglySorted_map_item. unfold specSearch.
    apply StronglySorted_merge_sort; apply _.
  - intros q t. split; [intros s; apply fieldErrors_least|].
    split; [apply fieldErrors_attained|apply fieldErrors_zero].
  - intros a b pre post x y. apply fieldErrors_typo.
Qed.

Lemma filtered_empty_query_witness :
  List.map Post.slug (@filtered specFuse samplePosts "Potery") = ["pottery-through-ages"]
  /\ forall p, In p (@filtered specFuse samplePosts "Potery") -> In p samplePosts.
Proof.
  destruct (filtered_empty_query samplePosts) as (_ & Hq & _).
  destruct (Hq "Potery") as (Hperm & Hsub & _); [discriminate|].
  split; [|exact Hsub].
  assert (E : List.filter (matchesQuery "Potery") samplePosts = List.firstn 1 samplePosts)
    by (vm_compute; reflexivity).
  rewrite E in Hperm. cbn [List.firstn samplePosts] in Hperm.
  apply Permutation_singleton_r in Hperm.
  rewrite Hperm. reflexivity.
Defined.

Example search_ranks_exact_first :
  List.map Post.slug (@filtered specFuse samplePosts "archaeology")
  = ["pottery-through-ages"; "digital-archaeology"; "archaeology-101-field-kit"]
  /\ List.map (postErrors "archaeology") samplePosts = [0; 1; 1]%nat.
Proof. split; vm_compute; reflexivity. Qed.

Example search_tolerates_typos :
  List.map Post.slug (@filtered specFuse samplePosts "ceramcs") = ["pottery-through-ages"]
  /\ List.map Post.slug (@filtered specFuse samplePosts "photogrametry")
     = ["digital-archaeology"]
  /\ List.map Post.slug (@filtered specFuse samplePosts "drones") = ["digital-archaeology"]
  /\ @filtered specFuse samplePosts "zzzzzz" = [].
Proof. repeat split; vm_compute; reflexivity. Qed.

(** * Further properties *)

(** ** Workflow *)

Lemma submit_invalid (clk : Clock) (a : App) :
  ~ validForm (form a) ->
  submit clk a = alert "Please fill required fields and agree to the terms." a.
Proof.
  intros Hbad. unfold submit.
  destruct (Js.truthy (Form.name (form a))) eqn:Hn; [|reflexivity].
  destruct (Js.truthy (Form.email (form a))) eqn:He; [|reflexivity].
  destruct (Js.truthy (Form.title (form a))) eqn:Ht; [|reflexivity].
  destruct (Js.truthy (Form.body (form a))) eqn:Hb; [|reflexivity].
  destruct (Form.agree (form a)) eqn:Hag; [|reflexivity].
  exfalso. apply Hbad. apply truthy_true_iff in Hn, He, Ht, Hb.
  unfold validForm. auto.
Qed.

Lemma submit_valid (clk : Clock) (a : App) :
  validForm (form a) ->
  submit clk a
  = alert "Thanks! Your article was submitted for review."
      (setForm Form.blank
         (setSubmissions
            (fun prev => Submission.mk (now clk) (form a) "pending" (isoNow clk) :: prev) a)).
Proof.
  intros (Hn & He & Ht & Hb & Hag). unfold submit.
  apply truthy_true_iff in Hn, He, Ht, Hb. now rewrite Hn, He, Ht, Hb, Hag.
Qed.

Lemma validForm_dec (f : Form.t) : validForm f \/ ~ validForm f.
Proof.
  unfold validForm.
  destruct (String.eqb_spec (Form.name f) ""); [right; tauto|].
  destruct (String.eqb_spec (Form.email f) ""); [right; tauto|].
  destruct (String.eqb_spec (Form.title f) ""); [right; tauto|].
  destruct (String.eqb_spec (Form.body f) ""); [right; tauto|].
  destruct (Form.agree f); [left; auto|right]. intros (_ & _ & _ & _ & H). discriminate.
Qed.

Lemma removeSubmission_In (s x : Submission.t) (l : list Submission.t) :
  In x (removeSubmission s l) <-> In x l /\ Submission.id x <> Submission.id s.
Proof.
  unfold removeSubmission. rewrite filter_In.
  now rewrite negb_true_iff, Z.eqb_neq.
Qed.

Lemma removeSubmission_sublist (s : Submission.t) (l : list Submission.t) :
  sublist (removeSubmission s l) l.
Proof.
  unfold removeSubmission. induction l as [|x l IH]; cbn; [constructor|].
  destruct (negb (Submission.id x =? Submission.id s)%Z); now constructor.
Qed.

Lemma removeSubmission_fresh (s : Submission.t) (l : list Submission.t) :
  (forall x, In x l -> Submission.id x <> Submission.id s) ->
  removeSubmission s l = l.
Proof.
  unfold removeSubmission. induction l as [|x l IH]; cbn; [reflexivity|].
  intros Hfresh.
  assert (Hx : Submission.id x <> Submission.id s) by (apply Hfresh; now left).
  apply Z.eqb_neq in Hx. rewrite Hx. cbn. f_equal. apply IH. auto.
Qed.

(** X1: Declining the prompt of [reject] changes nothing.  Confirming it takes
    every pending submission with the id of the rejected one off the list,
    keeps the others in their order, and leaves the corpus alone. *)
Theorem reject_removes (ok : bool) (s : Submission.t) (a : App) :
  (ok = false -> reject ok s a = a)
  /\ (ok = true ->
      posts (reject ok s a) = posts a
      /\ (forall x, In x (submissions (reject ok s a))
                    <-> In x (submissions a) /\ Submission.id x <> Submission.id s)
      /\ sublist (submissions (reject ok s a)) (submissions a)).
Proof.
  split; intros ->; [reflexivity|]. destruct a as [ps bm subs q pg f al].
  cbn. split; [reflexivity|]. split.
  - intros x. apply removeSubmission_In.
  - apply removeSubmission_sublist.
Qed.

Lemma reject_removes_witness :
  reject false bangSubmission
    (setSubmissions (fun _ => [introSubmission; bangSubmission]) init)
  = setSubmissions (fun _ => [introSubmission; bangSubmission]) init
  /\ posts (reject true bangSubmission
              (setSubmissions (fun _ => [introSubmission; bangSubmission]) init))
     = samplePosts.
Proof.
  destruct (reject_removes false bangSubmission
              (setSubmissions (fun _ => [introSubmission; bangSubmission]) init))
    as [Hno _].
  destruct (reject_removes true bangSubmission
              (setSubmissions (fun _ => [introSubmission; bangSubmission]) init))
    as [_ Hyes].
  split; [exact (Hno eq_refl)|]. exact (proj1 (Hyes eq_refl)).
Defined.

(** X2: Submitting a valid draft and then approving the submission it made
    publishes one post that carries the title, the author name and the
    body of the draft, clears the draft and opens the blog page; the
    pending list is back to what it was, provided no pending submission
    had the time of the submit as its id. *)
Theorem submit_then_approve (clk clk' : Clock) (a : App) :
  validForm (form a) ->
  let s := Submission.mk (now clk) (form a) "pending" (isoNow clk) in
  let a' := approve clk' s (submit clk a) in
  posts a' = postOf clk' s :: posts a
  /\ Post.title (postOf clk' s) = Form.title (form a)
  /\ Post.author (postOf clk' s) = Form.name (form a)
  /\ Post.body (postOf clk' s)
     = "# " +:+ Form.title (form a) +:+ nl +:+ nl +:+ Form.body (form a)
  /\ form a' = Form.blank
  /\ page a' = blog
  /\ (forall x, In x (submissions a')
                <-> In x (submissions a) /\ Submission.id x <> now clk)
  /\ ((forall x, In x (submissions a) -> Submission.id x <> now clk) ->
      submissions a' = submissions a).
Proof.
  intros Hvalid s a'. subst a'. rewrite (submit_valid clk a Hvalid). fold s.
  destruct a as [ps bm subs q pg f al]. cbn [form] in s.
  cbn -[postOf removeSubmission].
  assert (Hhead : removeSubmission s (s :: subs) = removeSubmission s subs).
  { unfold removeSubmission. cbn [List.filter]. now rewrite Z.eqb_refl. }
  rewrite Hhead.
  split; [reflexivity|]. split; [reflexivity|]. split; [reflexivity|].
  split; [reflexivity|]. split; [reflexivity|]. split; [reflexivity|]. split.
  - intros x. apply removeSubmission_In.
  - intros Hfresh. apply removeSubmission_fresh. exact Hfresh.
Qed.

Lemma submit_then_approve_witness :
  posts (approve noon potterySubmission (submit noon (setForm potteryForm init)))
  = postOf noon potterySubmission :: samplePosts
  /\ submissions (approve noon potterySubmission (submit noon (setForm potteryForm init)))
     = [].
Proof.
  assert (Hvalid : validForm (form (setForm potteryForm init))).
  { cbn. unfold validForm. cbn.
    split; [discriminate|]. split; [discriminate|]. split; [discriminate|].
    split; [discriminate|reflexivity]. }
  destruct (submit_then_approve noon noon (setForm potteryForm init) Hvalid)
    as (Hposts & _ & _ & _ & _ & _ & _ & Hsubs).
  split; [exact Hposts|]. apply Hsubs. intros x [].
Defined.

(** ** What a session keeps *)

Lemma step_posts (a a' : App) :
  step a a' ->
  posts a' = posts a \/ exists clk s, posts a' = postOf clk s :: posts a.
Proof.
  intros Hstep. destruct Hstep as [f a|q a|p a|slug a|clk a|clk s a Hin|ok s a Hin];
    try (left; destruct a; reflexivity).
  - left. destruct (validForm_dec (form a)) as [Hv|Hv].
    + rewrite (submit_valid clk a Hv). destruct a; reflexivity.
    + rewrite (submit_invalid clk a Hv). destruct a; reflexivity.
  - right. exists clk, s. destruct a; reflexivity.
  - left. destruct ok; destruct a; reflexivity.
Qed.

Lemma step_submissions (a a' : App) :
  step a a' ->
  submissions a' = submissions a
  \/ (exists clk, validForm (form a)
        /\ submissions a'
           = Submission.mk (now clk) (form a) "pending" (isoNow clk) :: submissions a)
  \/ (exists s, submissions a' = removeSubmission s (submissions a)).
Proof.
  intros Hstep. destruct Hstep as [f a|q a|p a|slug a|clk a|clk s a Hin|ok s a Hin];
    try (left; destruct a; reflexivity).
  - destruct (validForm_dec (form a)) as [Hv|Hv].
    + right; left. exists clk. split; [exact Hv|].
      rewrite (submit_valid clk a Hv). destruct a; reflexivity.
    + left. rewrite (submit_invalid clk a Hv). destruct a; reflexivity.
  - right; right. exists s. destruct a; reflexivity.
  - destruct ok; [right; right; exists s|left]; destruct a; reflexivity.
Qed.

Lemma step_bookmarks (a a' : App) :
  step a a' ->
  bookmarks a' = bookmarks a
  \/ exists slug, bookmarks a' = toggleBookmarkList slug (bookmarks a).
Proof.
  intros Hstep. destruct Hstep as [f a|q a|p a|slug a|clk a|clk s a Hin|ok s a Hin];
    try (left; destruct a; reflexivity).
  - right. exists slug. destruct a; reflexivity.
  - left. destruct (validForm_dec (form a)) as [Hv|Hv].
    + rewrite (submit_valid clk a Hv). destruct a; reflexivity.
    + rewrite (submit_invalid clk a Hv). destruct a; reflexivity.
  - left. destruct ok; destruct a; reflexivity.
Qed.

(** An invariant of the steps holds along every session. *)
Lemma session_invariant (P : App -> Prop) :
  (forall a a', step a a' -> P a -> P a') ->
  forall a a', rtc step a a' -> P a -> P a'.
Proof.
  intros Hstep a a' Hrun. induction Hrun as [a|a b c Hab Hbc IH]; [auto|].
  intros Ha. apply IH. exact (Hstep _ _ Hab Ha).
Qed.

Lemma potterySession_run : rtc step init potterySession.
Proof.
  unfold potterySession.
  eapply rtc_l; [apply (step_setForm potteryForm)|].
  eapply rtc_l; [apply (step_submit noon)|].
  eapply rtc_l; [|apply rtc_refl].
  apply (step_approve noon potterySubmission). left. reflexivity.
Qed.

(** X3: No handler deletes or alters a published post: whatever the session
    does, the corpus it started from is still there, behind the posts
    published since. *)
Theorem corpus_only_grows (a a' : App) :
  rtc step a a' -> exists new, posts a' = new ++ posts a.
Proof.
  intros Hrun.
  apply (session_invariant (fun x => exists new, posts x = new ++ posts a))
    with (a := a); [|exact Hrun|exists []; reflexivity].
  intros x x' Hstep [new Hx].
  destruct (step_posts _ _ Hstep) as [->|(clk & s & ->)].
  - exists new. exact Hx.
  - exists (postOf clk s :: new). rewrite Hx. reflexivity.
Qed.

Lemma corpus_only_grows_witness :
  exists new, posts potterySession = new ++ samplePosts.
Proof. exact (corpus_only_grows init potterySession potterySession_run). Defined.

(** X4: Every submission on the pending list of a session has status
    [pending], a name, an e-mail address, a title and a body that are not
    empty, and the agreement ticked. *)
Theorem pending_well_formed (a a' : App) :
  rtc step a a' ->
  Forall wellFormedPending (submissions a) ->
  Forall wellFormedPending (submissions a').
Proof.
  apply (session_invariant (fun x => Forall wellFormedPending (submissions x))).
  clear. intros a a' Hstep Hinv.
  destruct (step_submissions _ _ Hstep) as [->|[(clk & Hv & ->)|(s & ->)]].
  - exact Hinv.
  - constructor; [|exact Hinv]. split; [reflexivity|exact Hv].
  - rewrite Forall_forall in Hinv |- *. intros x Hx.
    apply list_elem_of_In, removeSubmission_In in Hx as [Hx _].
    apply Hinv, list_elem_of_In, Hx.
Qed.

Lemma pending_well_formed_witness :
  Forall wellFormedPending (submissions (submit noon (setForm potteryForm init))).
Proof.
  apply (pending_well_formed init).
  - eapply rtc_l; [apply (step_setForm potteryForm)|].
    eapply rtc_l; [apply (step_submit noon)|apply rtc_refl].
  - constructor.
Defined.

Lemma NoDup_toggleBookmarkList (slug : string) (bm : list string) :
  List.NoDup bm -> List.NoDup (toggleBookmarkList slug bm).
Proof.
  intros Hnd. unfold toggleBookmarkList. destruct (includes slug bm) eqn:Hin.
  - apply List.NoDup_filter. exact Hnd.
  - apply List.NoDup_app; [exact Hnd|repeat constructor; intros []|].
    intros x Hx [<-|[]]. apply includes_In in Hx. congruence.
Qed.

(** X5: A bookmark list without repetitions keeps none, whatever is toggled:
    from a fresh start no slug is ever bookmarked twice. *)
Theorem bookmarks_no_duplicates (a a' : App) :
  rtc step a a' -> List.NoDup (bookmarks a) -> List.NoDup (bookmarks a').
Proof.
  apply (session_invariant (fun x => List.NoDup (bookmarks x))).
  clear. intros a a' Hstep Hinv.
  destruct (step_bookmarks _ _ Hstep) as [->|(slug & ->)]; [exact Hinv|].
  apply NoDup_toggleBookmarkList, Hinv.
Qed.

Lemma bookmarks_no_duplicates_witness :
  List.NoDup (bookmarks (toggleBookmark "digital-archaeology"
                           (toggleBookmark "pottery-through-ages" init))).
Proof.
  apply (bookmarks_no_duplicates init).
  - eapply rtc_l; [apply (step_toggleBookmark "pottery-through-ages")|].
    eapply rtc_l; [apply (step_toggleBookmark "digital-archaeology")|apply rtc_refl].
  - constructor.
Defined.

Lemma deriveSlug_nonempty (s : Submission.t) : deriveSlug s <> "".
Proof.
  unfold deriveSlug, Js.or. destruct (Js.truthy (slugify (Submission.title s))) eqn:Ht.
  - now apply truthy_true_iff.
  - rewrite append_cons. discriminate.
Qed.

(** X6: [approve] never publishes a post with an empty slug, whatever the
    title; so a corpus whose slugs are not empty stays that way. *)
Theorem published_slug_nonempty (a a' : App) :
  (forall clk s, Post.slug (postOf clk s) <> "")
  /\ (rtc step a a' ->
      Forall (fun p => Post.slug p <> "") (posts a) ->
      Forall (fun p => Post.slug p <> "") (posts a')).
Proof.
  split; [intros clk s; apply deriveSlug_nonempty|].
  apply (session_invariant (fun x => Forall (fun p => Post.slug p <> "") (posts x))).
  clear. intros a a' Hstep Hinv.
  destruct (step_posts _ _ Hstep) as [->|(clk & s & ->)]; [exact Hinv|].
  constructor; [apply deriveSlug_nonempty|exact Hinv].
Qed.

Lemma published_slug_nonempty_witness :
  Forall (fun p => Post.slug p <> "") (posts potterySession).
Proof.
  apply (proj2 (published_slug_nonempty init potterySession) potterySession_run).
  repeat (constructor; [discriminate|]). constructor.
Defined.

(** ** Trimming *)

Lemma startsWithSpace_trimStart (s : string) : startsWithSpace (Js.trimStart s) = false.
Proof.
  induction s as [|c s IH]; cbn; [reflexivity|].
  destruct (Js.isSpace c) eqn:Hc; [exact IH|]. cbn. exact Hc.
Qed.

Lemma startsWithSpace_trimEnd (s : string) :
  startsWithSpace s = false -> startsWithSpace (Js.trimEnd s) = false.
Proof.
  destruct s as [|c s]; cbn; [reflexivity|]. intros Hc.
  destruct (Js.trimEnd s); [rewrite Hc|]; cbn; exact Hc.
Qed.

Lemma lastChar_None (s : string) : lastChar s = None -> s = "".
Proof. destruct s as [|c s]; cbn; [reflexivity|]. destruct (lastChar s); discriminate. Qed.

Lemma endsWithSpace_trimEnd (s : string) : endsWithSpace (Js.trimEnd s) = false.
Proof.
  unfold endsWithSpace. induction s as [|c s IH]; cbn; [reflexivity|].
  destruct (Js.trimEnd s) as [|c' t] eqn:Ht.
  - destruct (Js.isSpace c) eqn:Hc; cbn; [reflexivity|exact Hc].
  - cbn [lastChar] in *. destruct (lastChar t); exact IH.
Qed.

Lemma trim_Trimmed (s : string) : Trimmed (Js.trim s).
Proof.
  split.
  - apply startsWithSpace_trimEnd, startsWithSpace_trimStart.
  - apply endsWithSpace_trimEnd.
Qed.

Lemma trimStart_id (s : string) : startsWithSpace s = false -> Js.trimStart s = s.
Proof. destruct s as [|c s]; cbn; [reflexivity|]. now intros ->. Qed.

Lemma trimEnd_id (s : string) : endsWithSpace s = false -> Js.trimEnd s = s.
Proof.
  unfold endsWithSpace. induction s as [|c s IH]; cbn; [reflexivity|].
  destruct (lastChar s) as [d|] eqn:Hlast.
  - intros Hd. rewrite (IH Hd). destruct s; [discriminate Hlast|reflexivity].
  - apply lastChar_None in Hlast. subst s. cbn. now intros ->.
Qed.

Lemma trim_id (s : string) : Trimmed s -> Js.trim s = s.
Proof.
  intros [Hstart Hend]. unfold Js.trim. rewrite (trimStart_id s Hstart).
  now apply trimEnd_id.
Qed.

Lemma trimEnd_empty (s : string) : Js.trimEnd s = "" <-> Blank s.
Proof.
  unfold Blank. induction s as [|c s IH]; cbn; [tauto|].
  destruct (Js.trimEnd s) as [|c' t].
  - destruct (Js.isSpace c); cbn.
    + split; [intros _; now apply IH|reflexivity].
    + split; discriminate.
  - split; [discriminate|]. intros H. apply andb_prop in H as [_ H].
    apply IH in H. discriminate.
Qed.

Lemma allChars_isSpace_trimStart (s : string) :
  allChars Js.isSpace (Js.trimStart s) = allChars Js.isSpace s.
Proof.
  induction s as [|c s IH]; cbn; [reflexivity|].
  destruct (Js.isSpace c) eqn:Hc; cbn; [exact IH|]. now rewrite Hc.
Qed.

(** [s.trim()] is empty exactly for the strings made of white space only. *)
Lemma trim_empty (s : string) : Js.trim s = "" <-> Blank s.
Proof.
  unfold Js.trim. rewrite trimEnd_empty. unfold Blank.
  now rewrite allChars_isSpace_trimStart.
Qed.

Lemma trim_truthy (s : string) : Js.truthy (Js.trim s) = false <-> Blank s.
Proof. rewrite truthy_false_iff. apply trim_empty. Qed.

(** ** Comments *)

(** X7: [add] takes a comment only when the name and the text both hold
    something besides white space; otherwise it shows the notice and
    changes nothing else.  A comment it takes goes in front of the list
    with the time as its id and with name and text trimmed: neither is
    empty or has white space at an end.  The text box is cleared, the name
    box is kept. *)
Theorem comment_add (clk : Clock) (st : Comments.State) :
  (Blank (Comments.name st) \/ Blank (Comments.text st) ->
   Comments.items (Comments.add clk st) = Comments.items st
   /\ Comments.name (Comments.add clk st) = Comments.name st
   /\ Comments.text (Comments.add clk st) = Comments.text st
   /\ Comments.alerts (Comments.add clk st)
      = Comments.alerts st ++ ["Please add your name and comment."])
  /\
  (~ Blank (Comments.name st) -> ~ Blank (Comments.text st) ->
   exists item,
     Comments.items (Comments.add clk st) = item :: Comments.items st
     /\ Comment.id item = now clk
     /\ Comment.name item = Js.trim (Comments.name st)
     /\ Comment.text item = Js.trim (Comments.text st)
     /\ Comment.name item <> "" /\ Trimmed (Comment.name item)
     /\ Comment.text item <> "" /\ Trimmed (Comment.text item)
     /\ Comments.text (Comments.add clk st) = ""
     /\ Comments.name (Comments.add clk st) = Comments.name st
     /\ Comments.alerts (Comments.add clk st) = Comments.alerts st).
Proof.
  unfold Comments.add. split.
  - intros Hblank.
    assert (negb (Js.truthy (Js.trim (Comments.name st)))
            || negb (Js.truthy (Js.trim (Comments.text st))) = true) as ->.
    { destruct Hblank as [Hb|Hb]; apply trim_truthy in Hb; rewrite Hb;
        [reflexivity|apply orb_true_r]. }
    cbn. auto.
  - intros Hname Htext.
    destruct (Js.truthy (Js.trim (Comments.name st))) eqn:Hn;
      [|apply trim_truthy in Hn; contradiction].
    destruct (Js.truthy (Js.trim (Comments.text st))) eqn:Ht;
      [|apply trim_truthy in Ht; contradiction].
    apply truthy_true_iff in Hn, Ht. cbn. eexists. split; [reflexivity|]. cbn.
    split; [reflexivity|]. split; [reflexivity|]. split; [reflexivity|].
    split; [exact Hn|]. split; [apply trim_Trimmed|].
    split; [exact Ht|]. split; [apply trim_Trimmed|]. auto.
Qed.

Lemma comment_add_witness :
  Comments.items (Comments.add noon blankComment) = []
  /\ exists item,
       Comments.items (Comments.add noon draftComment) = [item]
       /\ Comment.name item = "Ada" /\ Comment.text item = "Nice sherds!".
Proof.
  destruct (comment_add noon blankComment) as [Hbad _].
  destruct (comment_add noon draftComment) as [_ Hok].
  split.
  - apply Hbad. right. reflexivity.
  - destruct Hok as (item & Hitems & _ & Hname & Htext & _).
    + intros Hb. discriminate Hb.
    + intros Hb. discriminate Hb.
    + exists item. split; [exact Hitems|]. split; [exact Hname|exact Htext].
Defined.

(** ** Tags of an approved post *)

Lemma splitChar_no_sep (sep : ascii) (s : string) :
  Forall (fun piece => allChars (fun c => negb (Ascii.eqb c sep)) piece = true)
         (Js.splitChar sep s).
Proof.
  induction s as [|c s IH]; cbn; [repeat constructor|].
  destruct (Ascii.eqb c sep) eqn:Hc.
  - constructor; [reflexivity|exact IH].
  - destruct (Js.splitChar sep s) as [|p ps]; cbn.
    + repeat constructor. cbn. now rewrite Hc.
    + inversion IH as [|? ? Hp Hps]; subst. constructor; [|exact Hps].
      cbn. now rewrite Hc, Hp.
Qed.

(** X8: The tags [approve] gives a post are never empty, have no white space
    at either end and contain no comma; a tag field made of commas and
    white space only gives no tag. *)
Theorem parseTags_clean (raw : string) :
  Forall (fun t => t <> "" /\ Trimmed t /\ allChars notComma t = true) (parseTags raw)
  /\ (allChars (fun c => Js.isSpace c || Ascii.eqb c ",") raw = true ->
      parseTags raw = []).
Proof.
  split.
  - unfold parseTags. destruct (Js.truthy raw); [|constructor].
    rewrite Forall_forall. intros t Ht.
    apply list_elem_of_In, filter_In in Ht as [Ht Hne].
    apply in_map_iff in Ht as (piece & <- & Hpiece).
    split; [now apply truthy_true_iff|]. split; [apply trim_Trimmed|].
    pose proof (splitChar_no_sep "," raw) as Hall.
    rewrite Forall_forall in Hall.
    apply list_elem_of_In, Hall in Hpiece.
    unfold Js.trim. now apply allChars_trimEnd, allChars_trimStart.
  - intros Hraw. unfold parseTags. destruct (Js.truthy raw); [|reflexivity].
    assert (Hpieces : Forall Blank (Js.splitChar "," raw)).
    { induction raw as [|c raw IH]; cbn; [repeat constructor|].
      cbn in Hraw. apply andb_prop in Hraw as [Hc Hraw]. specialize (IH Hraw).
      destruct (Ascii.eqb c ",") eqn:Hcomma.
      - constructor; [reflexivity|exact IH].
      - rewrite orb_false_r in Hc.
        destruct (Js.splitChar "," raw) as [|p ps]; cbn.
        + repeat constructor. unfold Blank. cbn. now rewrite Hc.
        + inversion IH as [|? ? Hp Hps]; subst. constructor; [|exact Hps].
          unfold Blank in *. cbn. now rewrite Hc, Hp. }
    induction Hpieces as [|p ps Hp Hps IH]; cbn; [reflexivity|].
    apply trim_truthy in Hp. rewrite Hp. exact IH.
Qed.

Lemma parseTags_clean_witness : parseTags " , ,, " = [].
Proof. apply (proj2 (parseTags_clean " , ,, ")). reflexivity. Defined.

(** ** Slugs *)

Lemma slugChar_facts (c : ascii) :
  isSlugChar c = true ->
  Js.toLowerChar c = c /\ notSlugChar c = false /\ Js.isSpace c = false.
Proof.
  destruct c as [[] [] [] [] [] [] [] []]; vm_compute;
    intros; first [discriminate | auto].
Qed.

Lemma toLowerChar_idem (c : ascii) : Js.toLowerChar (Js.toLowerChar c) = Js.toLowerChar c.
Proof. destruct c as [[] [] [] [] [] [] [] []]; vm_compute; reflexivity. Qed.

Lemma toLowerCase_idem (s : string) : Js.toLowerCase (Js.toLowerCase s) = Js.toLowerCase s.
Proof. induction s as [|c s IH]; cbn; [reflexivity|]. now rewrite toLowerChar_idem, IH. Qed.

Lemma slug_toLowerCase (s : string) :
  allChars isSlugChar s = true -> Js.toLowerCase s = s.
Proof.
  induction s as [|c s IH]; cbn; [reflexivity|]. intros H.
  apply andb_prop in H as [Hc Hs]. apply slugChar_facts in Hc as (-> & _).
  now rewrite IH.
Qed.

Lemma slug_removeAll (s : string) :
  allChars isSlugChar s = true -> Js.removeAll notSlugChar s = s.
Proof.
  induction s as [|c s IH]; cbn; [reflexivity|]. intros H.
  apply andb_prop in H as [Hc Hs]. apply slugChar_facts in Hc as (_ & -> & _).
  now rewrite IH.
Qed.

Lemma slug_no_space (s : string) :
  allChars isSlugChar s = true -> allChars (fun c => negb (Js.isSpace c)) s = true.
Proof.
  induction s as [|c s IH]; cbn; [reflexivity|]. intros H.
  apply andb_prop in H as [Hc Hs]. apply slugChar_facts in Hc as (_ & _ & ->).
  cbn. auto.
Qed.

Lemma no_space_trimEnd (s : string) :
  allChars (fun c => negb (Js.isSpace c)) s = true -> Js.trimEnd s = s.
Proof.
  induction s as [|c s IH]; cbn; [reflexivity|]. intros H.
  apply andb_prop in H as [Hc Hs]. rewrite (IH Hs).
  apply negb_true_iff in Hc. rewrite Hc. now destruct s.
Qed.

Lemma no_space_trim (s : string) :
  allChars (fun c => negb (Js.isSpace c)) s = true -> Js.trim s = s.
Proof.
  intros H. unfold Js.trim.
  assert (Js.trimStart s = s) as ->.
  { destruct s as [|c s]; cbn in *; [reflexivity|].
    apply andb_prop in H as [Hc _]. apply negb_true_iff in Hc. now rewrite Hc. }
  now apply no_space_trimEnd.
Qed.

Lemma no_space_replaceSpaceRuns (r : string) (b : bool) (s : string) :
  allChars (fun c => negb (Js.isSpace c)) s = true -> Js.replaceSpaceRuns r b s = s.
Proof.
  revert b. induction s as [|c s IH]; intros b; cbn; [reflexivity|]. intros H.
  apply andb_prop in H as [Hc Hs]. apply negb_true_iff in Hc. rewrite Hc.
  now rewrite IH.
Qed.

Lemma slugify_fixed (s : string) : allChars isSlugChar s = true -> slugify s = s.
Proof.
  intros Hs. unfold slugify.
  rewrite (slug_toLowerCase s Hs), (slug_removeAll s Hs).
  pose proof (slug_no_space s Hs) as Hns.
  rewrite (no_space_trim s Hns). now apply no_space_replaceSpaceRuns.
Qed.

(** X9: A string made of lower-case letters, digits and hyphens is its own
    slug; so slugifying twice is slugifying once, and the slug does not
    depend on the letter case of the text. *)
Theorem slugify_idempotent (s : string) :
  slugify (slugify s) = slugify s
  /\ (allChars isSlugChar s = true -> slugify s = s)
  /\ slugify (Js.toLowerCase s) = slugify s.
Proof.
  split; [apply slugify_fixed, slugify_chars|]. split; [apply slugify_fixed|].
  unfold slugify. now rewrite toLowerCase_idem.
Qed.

Lemma slugify_idempotent_witness :
  slugify "pottery-through-ages" = "pottery-through-ages".
Proof. apply (proj1 (proj2 (slugify_idempotent "pottery-through-ages"))). reflexivity. Defined.

(** ** Reading time of short texts *)

Lemma length_consHead (c : ascii) (l : list string) :
  l <> [] -> List.length (Js.consHead c l) = List.length l.
Proof. destruct l; [contradiction|reflexivity]. Qed.

Lemma splitSpaceRuns_length (r : bool) (s : string) :
  (List.length (Js.splitSpaceRuns r s) <= Datatypes.S (String.length s))%nat.
Proof.
  revert r. induction s as [|c s IH]; intros r; cbn [Js.splitSpaceRuns String.length].
  - cbn. lia.
  - destruct (Js.isSpace c).
    + destruct r; [specialize (IH true); lia|].
      cbn [List.length]. specialize (IH true). lia.
    + rewrite length_consHead by apply splitSpaceRuns_nonempty.
      specialize (IH false). lia.
Qed.

(** X10: The count of pieces is at most the length of the text plus one, so a
    text of up to 768 characters is always estimated at 3 minutes, and no
    estimate exceeds what its length allows. *)
Theorem estimateMinutes_short (b : string) :
  ((String.length b <= 768)%nat -> estimateMinutes b = 3%Z)
  /\ (estimateMinutes b <= Z.max 3 (roundDiv (Z.of_nat (String.length b) + 1) 220))%Z.
Proof.
  pose proof (splitSpaceRuns_length false b) as Hlen.
  pose proof (roundDiv_nearest (Z.of_nat (List.length (Js.splitSpaceRuns false b)))) as Hr.
  pose proof (roundDiv_nearest (Z.of_nat (String.length b) + 1)) as Hr'.
  unfold estimateMinutes. split; [intros Hshort|]; lia.
Qed.

Lemma estimateMinutes_short_witness : estimateMinutes "More on pottery." = 3%Z.
Proof. apply (proj1 (estimateMinutes_short "More on pottery.")). cbn. lia. Defined.

(** ** Cards *)

Lemma substring_take_length (n : nat) (s : string) :
  (String.length (String.substring 0 n s) <= n)%nat.
Proof.
  revert s. induction n as [|n IH]; intros [|c s]; cbn; try lia.
  specialize (IH s). lia.
Qed.

Lemma substring_take_all (n : nat) (s : string) :
  (String.length s <= n)%nat -> String.substring 0 n s = s.
Proof.
  revert s. induction n as [|n IH]; intros [|c s]; cbn; try reflexivity; try lia.
  intros H. f_equal. apply IH. lia.
Qed.

Lemma substring_take_prefix (n : nat) (s : string) :
  exists rest, s = String.substring 0 n s +:+ rest.
Proof.
  revert s. induction n as [|n IH]; intros [|c s]; cbn.
  - exists "". reflexivity.
  - exists (String c s). reflexivity.
  - exists "". reflexivity.
  - destruct (IH s) as [rest Hrest]. exists rest. rewrite append_cons. congruence.
Qed.

Lemma allChars_substring_take (p : ascii -> bool) (n : nat) (s : string) :
  allChars p s = true -> allChars p (String.substring 0 n s) = true.
Proof.
  revert s. induction n as [|n IH]; intros [|c s]; cbn; try reflexivity.
  intros H. apply andb_prop in H as [-> H]. cbn. auto.
Qed.

(** X11: The teaser of a card is never longer than 120 characters and holds
    none of [#], [>], [*] and the backtick; it is the beginning of the body
    with those characters taken out, and all of it when that is short
    enough. *)
Theorem excerpt_bounds (p : Post.t) :
  (String.length (excerpt p) <= 120)%nat
  /\ allChars notMarkup (excerpt p) = true
  /\ (exists rest, Js.removeAll isMarkup (Post.body p) = excerpt p +:+ rest)
  /\ ((String.length (Js.removeAll isMarkup (Post.body p)) <= 120)%nat ->
      excerpt p = Js.removeAll isMarkup (Post.body p)).
Proof.
  unfold excerpt. split; [apply substring_take_length|]. split; [|split].
  - apply allChars_substring_take. apply allChars_removeAll.
  - apply substring_take_prefix.
  - apply substring_take_all.
Qed.

Lemma excerpt_bounds_witness :
  excerpt (Post.mk "s" "T" "A" "2025-01-01" "" [] 3 "# *Hi* there") = " Hi there".
Proof.
  apply (proj2 (proj2 (proj2
    (excerpt_bounds (Post.mk "s" "T" "A" "2025-01-01" "" [] 3 "# *Hi* there"))))).
  cbn. lia.
Defined.

Lemma minutesShown_min (p : Post.t) :
  (3 <= Post.minutes p)%Z -> (3 <= minutesShown p)%Z.
Proof.
  intros H. unfold minutesShown.
  destruct (Z.eqb_spec (Post.minutes p) 0); [unfold estimateMinutes|]; lia.
Qed.

(** X12: The reading time a card shows is never zero: a post that carries a
    number of minutes shows it, a post without one shows the estimate of
    its body, which is at least 3.  A post published by [approve] shows
    the estimate of the submitted text, and along a session every post
    keeps showing at least 3 minutes if those at its start did. *)
Theorem minutesShown_never_zero (p : Post.t) :
  minutesShown p <> 0%Z
  /\ (Post.minutes p <> 0%Z -> minutesShown p = Post.minutes p)
  /\ (Post.minutes p = 0%Z ->
      minutesShown p = estimateMinutes (Post.body p) /\ (3 <= minutesShown p)%Z)
  /\ (forall clk s, minutesShown (postOf clk s) = estimateMinutes (Submission.body s))
  /\ (forall a a', rtc step a a' ->
        Forall (fun q => (3 <= minutesShown q)%Z) (posts a) ->
        Forall (fun q => (3 <= minutesShown q)%Z) (posts a')).
Proof.
  unfold minutesShown. split; [|split; [|split; [|split]]].
  - destruct (Z.eqb_spec (Post.minutes p) 0); [unfold estimateMinutes; lia|assumption].
  - intros H. apply Z.eqb_neq in H. now rewrite H.
  - intros ->. cbn. split; [reflexivity|unfold estimateMinutes; lia].
  - intros clk s. cbn [postOf Post.minutes].
    destruct (Z.eqb_spec (estimateMinutes (Submission.body s)) 0) as [E|]; [|reflexivity].
    unfold estimateMinutes in E. lia.
  - apply (session_invariant
             (fun x => Forall (fun q => (3 <= minutesShown q)%Z) (posts x))).
    intros a a' Hstep Hinv.
    destruct (step_posts _ _ Hstep) as [->|(clk & s & ->)]; [exact Hinv|].
    constructor; [|exact Hinv]. apply minutesShown_min.
    cbn [postOf Post.minutes]. unfold estimateMinutes. lia.
Qed.

Lemma minutesShown_never_zero_witness :
  Forall (fun q => (3 <= minutesShown q)%Z) (posts potterySession).
Proof.
  destruct (minutesShown_never_zero (Post.mk "" "" "" "" "" [] 0 "")) as (_ & _ & _ & _ & Hinv).
  apply (Hinv init potterySession potterySession_run).
  repeat (constructor; [vm_compute; discriminate|]). constructor.
Defined.

(** ** Glossary hook: nothing lost *)

Lemma prefixCI_prefix (pat s m : string) :
  prefixCI pat s = Some m -> s = m +:+ strDrop (String.length m) s.
Proof.
  revert s m. induction pat as [|p pat IH]; intros s m; cbn.
  - intros [= <-]. reflexivity.
  - destruct s as [|c s]; [discriminate|].
    destruct (Ascii.eqb (foldAscii c) p); [|discriminate].
    destruct (prefixCI pat s) as [m'|] eqn:Hrec; [|discriminate].
    intros [= <-]. cbn [String.length strDrop]. rewrite append_cons.
    f_equal. now apply IH.
Qed.

Lemma matchTerm_prefix (s m : string) :
  matchTerm s = Some m ->
  s = m +:+ strDrop (String.length m) s /\ (1 <= String.length m)%nat.
Proof.
  intros Hm. apply matchTerm_cases in Hm as [H|[H|[H|H]]];
    (split; [now apply (prefixCI_prefix _ _ _ H)|]);
    apply prefixCI_length in H; rewrite H; cbn; lia.
Qed.

Lemma joinAll_consHead (c : ascii) (l : list string) :
  l <> [] -> joinAll (Js.consHead c l) = String c (joinAll l).
Proof. destruct l as [|p ps]; [contradiction|reflexivity]. Qed.

Lemma splitTerms_nonempty (k : nat) (s : string) : splitTerms k s <> [].
Proof. destruct (splitTerms_pieces s k) as (h & rest & -> & _). discriminate. Qed.

Lemma joinAll_splitTerms (s : string) (k : nat) :
  joinAll (splitTerms k s) = strDrop k s.
Proof.
  revert k. induction s as [|c s IH]; intros k.
  - destruct k; reflexivity.
  - destruct k as [|k]; cbn [splitTerms strDrop]; [|apply IH].
    destruct (matchTerm (String c s)) as [m|] eqn:Hm.
    + apply matchTerm_prefix in Hm as [Hpre Hlen].
      cbn [joinAll fold_right]. rewrite append_nil. fold (joinAll (splitTerms (String.length m - 1) s)).
      rewrite IH. etransitivity; [|symmetry; exact Hpre]. f_equal.
      destruct (String.length m) as [|n]; [lia|].
      replace (Datatypes.S n - 1)%nat with n by lia. reflexivity.
    + rewrite joinAll_consHead by apply splitTerms_nonempty. now rewrite IH.
Qed.

Lemma joinAll_render (pieces : list string) :
  joinAll (List.map renderedText (List.map renderPart pieces)) = joinAll pieces.
Proof.
  induction pieces as [|p ps IH]; cbn; [reflexivity|].
  fold (joinAll (List.map renderedText (List.map renderPart ps))) (joinAll ps).
  rewrite IH. f_equal. unfold renderPart.
  destruct (glossaryGet (glossaryKey p)) as [v|]; [|reflexivity].
  now destruct (truthyValue (Some v)).
Qed.

(** X13: The glossary hook neither drops nor alters a character: the pieces of
    the split, and the texts of what is rendered for them, put together
    give back the text it was called with. *)
Theorem textComponent_keeps_text (children : string) :
  joinAll (splitTerms 0 children) = children
  /\ joinAll (List.map renderedText (textComponent children)) = children.
Proof.
  split; [apply (joinAll_splitTerms children 0)|].
  unfold textComponent. rewrite joinAll_render. apply (joinAll_splitTerms children 0).
Qed.

(** ** Sets of strings *)

Lemma JsSet_add_In (x y : string) (cur : list string) :
  In y (JsSet.add x cur) <-> y = x \/ In y cur.
Proof.
  unfold JsSet.add. destruct (includes x cur) eqn:Hx.
  - apply includes_In in Hx. split; [auto|]. intros [->|H]; assumption.
  - rewrite in_app_iff. cbn. intuition congruence.
Qed.

Lemma JsSet_add_NoDup (x : string) (cur : list string) :
  List.NoDup cur -> List.NoDup (JsSet.add x cur).
Proof.
  intros Hnd. unfold JsSet.add. destruct (includes x cur) eqn:Hx; [exact Hnd|].
  apply List.NoDup_app; [exact Hnd|repeat constructor; intros []|].
  intros y Hy [<-|[]]. apply includes_In in Hy. congruence.
Qed.

Lemma JsSet_delete_In (x y : string) (cur : list string) :
  In y (JsSet.delete x cur) <-> In y cur /\ y <> x.
Proof.
  unfold JsSet.delete. rewrite filter_In, negb_true_iff, String.eqb_neq. tauto.
Qed.

Lemma JsSet_fold_add (arr cur : list string) :
  List.NoDup cur ->
  List.NoDup (fold_left (fun c x => JsSet.add x c) arr cur)
  /\ forall y, In y (fold_left (fun c x => JsSet.add x c) arr cur)
               <-> In y cur \/ In y arr.
Proof.
  revert cur. induction arr as [|x arr IH]; intros cur Hnd; cbn.
  - split; [exact Hnd|]. tauto.
  - destruct (IH (JsSet.add x cur) (JsSet_add_NoDup x cur Hnd)) as [Hnd' Hin].
    split; [exact Hnd'|]. intros y. rewrite Hin, JsSet_add_In. intuition congruence.
Qed.

Lemma JsSet_fromArray_spec (arr : list string) :
  List.NoDup (JsSet.fromArray arr)
  /\ forall y, In y (JsSet.fromArray arr) <-> In y arr.
Proof.
  destruct (JsSet_fold_add arr [] (List.NoDup_nil _)) as [Hnd Hin].
  split; [exact Hnd|]. intros y. unfold JsSet.fromArray. rewrite Hin. cbn. tauto.
Qed.

Lemma includes_iff (x : string) (l1 l2 : list string) :
  (In x l1 <-> In x l2) -> includes x l1 = includes x l2.
Proof.
  intros H. destruct (includes x l1) eqn:H1, (includes x l2) eqn:H2; try reflexivity.
  - apply includes_In, H, includes_In in H1. congruence.
  - apply includes_In, H, includes_In in H2. congruence.
Qed.

(** ** Tag chips of the blog page *)

(** X14: The chips of [BlogIndex] are the tags of the listed posts, each once,
    in ascending order of their code units; no other list has these
    three properties, so the sorting method does not matter. *)
Theorem allTags_sorted (ps : list Post.t) :
  Sorted String.le (allTags ps)
  /\ List.NoDup (allTags ps)
  /\ (forall t, In t (allTags ps) <-> exists p, In p ps /\ In t (Post.tags p))
  /\ (forall l, Sorted String.le l -> Permutation l (allTags ps) -> l = allTags ps).
Proof.
  unfold allTags.
  destruct (JsSet_fromArray_spec (List.flat_map Post.tags ps)) as [Hnd Hin].
  pose proof (merge_sort_Permutation String.le
                (JsSet.fromArray (List.flat_map Post.tags ps))) as Hperm.
  split; [apply Sorted_merge_sort; apply _|]. split; [|split].
  - eapply Permutation_NoDup; [symmetry; exact Hperm|exact Hnd].
  - intros t. split.
    + intros Ht. apply (Permutation_in _ Hperm), Hin, in_flat_map in Ht. exact Ht.
    + intros Ht. apply (Permutation_in _ (Permutation_sym Hperm)), Hin, in_flat_map.
      exact Ht.
  - intros l Hl Hpl. apply (Sorted_unique String.le); [exact Hl| |exact Hpl].
    apply Sorted_merge_sort; apply _.
Qed.

Lemma allTags_sorted_witness :
  allTags samplePosts
  = ["3D"; "ceramics"; "field methods"; "gear"; "how-to"; "material culture";
     "survey"; "technology"].
Proof.
  symmetry.
  apply (proj2 (proj2 (proj2 (allTags_sorted samplePosts)))).
  - repeat (constructor; [|constructor; vm_compute; exact I]). repeat constructor.
  - vm_compute. reflexivity.
Defined.

(** ** Learning paths *)

Lemma toggled_includes (msId x : string) (cur : list string) :
  includes x (if JsSet.has msId cur then JsSet.delete msId cur else JsSet.add msId cur)
  = if String.eqb x msId then negb (includes msId cur) else includes x cur.
Proof.
  unfold JsSet.has. destruct (includes msId cur) eqn:Hm.
  - unfold JsSet.delete. rewrite includes_remove.
    destruct (String.eqb_spec x msId) as [->|]; cbn;
      [apply andb_false_r|apply andb_true_r].
  - unfold JsSet.add. rewrite Hm, includes_app. cbn [includes existsb].
    destruct (String.eqb_spec x msId) as [->|]; cbn;
      [apply orb_true_r|now rewrite orb_false_r].
Qed.

Lemma toggled_NoDup (msId : string) (cur : list string) :
  List.NoDup cur ->
  List.NoDup (if JsSet.has msId cur then JsSet.delete msId cur else JsSet.add msId cur).
Proof.
  intros Hnd. destruct (JsSet.has msId cur).
  - apply List.NoDup_filter, Hnd.
  - apply JsSet_add_NoDup, Hnd.
Qed.

Lemma ticked_insert (trackId : string) (l : list string) (p : gmap string (list string)) :
  ticked (<[trackId := l]> p) trackId = l.
Proof. unfold ticked. now rewrite lookup_insert_eq. Qed.

(** X15: Ticking a milestone flips it and nothing else: the other milestones of
    the track and the other tracks stay as they are, and the list stored
    for the track never holds a milestone twice.  This holds for a track
    with an entry and for a track without one whose id is not the name of
    a member of [Object.prototype]; for such a name without an entry the
    updater throws a [TypeError]. *)
Theorem learning_toggle (trackId msId : string) (p : gmap string (list string)) :
  (p !! trackId = None -> includes trackId objectPrototypeKeys = true ->
   LearningTracks.toggle trackId msId p = Throw TypeError)
  /\
  (is_Some (p !! trackId) \/ includes trackId objectPrototypeKeys = false ->
   exists p',
     LearningTracks.toggle trackId msId p = Normal p'
     /\ List.NoDup (ticked p' trackId)
     /\ is_Some (p' !! trackId)
     /\ (forall x, includes x (ticked p' trackId)
                   = if String.eqb x msId then negb (includes msId (ticked p trackId))
                     else includes x (ticked p trackId))
     /\ (forall other, other <> trackId -> p' !! other = p !! other)
     /\ LearningTracks.done trackId msId p'
        = Normal (negb (includes msId (ticked p trackId)))).
Proof.
  unfold LearningTracks.toggle, getMember. split.
  - intros -> ->. reflexivity.
  - intros Hok.
    assert (Hcur : exists cur,
      match
        match p !! trackId with
        | Some a => Found a
        | None => if includes trackId objectPrototypeKeys
                  then FromPrototype trackId else Missing
        end
      with
      | Found arr => Normal (JsSet.fromArray arr)
      | FromPrototype _ => Throw TypeError
      | Missing => Normal (JsSet.fromArray [])
      end = Normal cur
      /\ List.NoDup cur
      /\ forall x, includes x cur = includes x (ticked p trackId)).
    { unfold ticked. destruct (p !! trackId) as [arr|] eqn:Hget.
      - exists (JsSet.fromArray arr). destruct (JsSet_fromArray_spec arr) as [Hnd Hin].
        split; [reflexivity|]. split; [exact Hnd|].
        intros x. apply includes_iff, Hin.
      - destruct Hok as [[? [=]]|Hk]. rewrite Hk. exists []. cbn.
        split; [reflexivity|]. split; [constructor|reflexivity]. }
    destruct Hcur as (cur & -> & Hnd & Hsame).
    unfold mbind, Completion_bind, mret, Completion_ret.
    eexists. split; [reflexivity|].
    unfold LearningTracks.done, getMember. rewrite ticked_insert, lookup_insert_eq.
    split; [apply toggled_NoDup, Hnd|]. split; [eauto|]. split; [|split].
    + intros x. rewrite toggled_includes, !Hsame. reflexivity.
    + intros other Hne. now apply lookup_insert_ne.
    + f_equal. rewrite toggled_includes, String.eqb_refl, Hsame. reflexivity.
Qed.

Lemma learning_toggle_witness :
  LearningTracks.toggle "foundations" "ethics" someProgress
    = Normal (<["foundations" := ["methods"; "dating"; "ethics"]]> someProgress)
  /\ LearningTracks.toggle "constructor" "ethics" someProgress = Throw TypeError.
Proof.
  destruct (learning_toggle "foundations" "ethics" someProgress) as [_ Hok].
  destruct (learning_toggle "constructor" "ethics" someProgress) as [Hthrow _].
  split; [|apply Hthrow; reflexivity].
  destruct Hok as (p' & Htoggle & _); [left; eexists; reflexivity|].
  rewrite Htoggle. f_equal.
  assert (Normal p' = LearningTracks.toggle "foundations" "ethics" someProgress) as E
    by (symmetry; exact Htoggle).
  vm_compute in E. injection E as ->. vm_compute. reflexivity.
Defined.

(** ** Applause *)

Lemma clap_Num `{Engine} (slug : string) (prev : gmap string LikeValue) (n : Z) :
  prev !! slug = Some (Num n) -> clap slug prev !! slug = Some (Num (n + 1)).
Proof.
  intros Hn. unfold clap, getMember. rewrite lookup_insert_eq, Hn. cbn.
  destruct (Z.eqb_spec n 0) as [->|]; reflexivity.
Qed.

(** X16: A clap adds one to the count of the post and touches no other entry; a
    post without an entry gets the count 1.  The exception is a slug that
    names a member of [Object.prototype] and has no entry: its entry
    becomes a text, not a count.  (Counts are below 2^53.) *)
Theorem clap_counts `{Engine} (slug : string) (prev : gmap string LikeValue) :
  (forall other, other <> slug -> clap slug prev !! other = prev !! other)
  /\ (forall n, prev !! slug = Some (Num n) -> (0 <= n < 2 ^ 53)%Z ->
        clap slug prev !! slug = Some (Num (n + 1)))
  /\ (prev !! slug = None -> includes slug objectPrototypeKeys = false ->
        clap slug prev !! slug = Some (Num 1))
  /\ (prev !! slug = None -> includes slug objectPrototypeKeys = true ->
        clap slug prev !! slug = Some (Str (memberText slug +:+ "1")))
  /\ (forall n k, prev !! slug = Some (Num n) -> (0 <= n)%Z ->
        (n + Z.of_nat k <= 2 ^ 53)%Z ->
        Nat.iter k (clap slug) prev !! slug = Some (Num (n + Z.of_nat k))).
Proof.
  split; [|split; [|split; [|split]]].
  - intros other Hne. unfold clap. now apply lookup_insert_ne.
  - intros n Hn Hrange. now apply clap_Num.
  - intros Hn Hk. unfold clap, getMember. rewrite lookup_insert_eq, Hn, Hk. reflexivity.
  - intros Hn Hk. unfold clap, getMember. rewrite lookup_insert_eq, Hn, Hk. reflexivity.
  - intros n k Hn Hpos. induction k as [|k IH]; intros Hrange.
    + cbn. rewrite Hn. do 2 f_equal. lia.
    + rewrite Nat.iter_succ, (clap_Num slug _ _ (IH ltac:(lia))).
      do 2 f_equal. lia.
Qed.

Lemma clap_counts_witness :
  @clap sampleEngine "digital-archaeology" someLikes !! "digital-archaeology"
    = Some (Num 42)
  /\ @clap sampleEngine "pottery-through-ages" someLikes !! "pottery-through-ages"
    = Some (Num 1)
  /\ @clap sampleEngine "constructor" someLikes !! "constructor"
    = Some (Str "function Object() { [native code] }1").
Proof.
  destruct (@clap_counts sampleEngine "digital-archaeology" someLikes)
    as (_ & Hinc & _).
  destruct (@clap_counts sampleEngine "pottery-through-ages" someLikes)
    as (_ & _ & Hnew & _).
  destruct (@clap_counts sampleEngine "constructor" someLikes)
    as (_ & _ & _ & Hproto & _).
  split; [apply (Hinc 41%Z); [reflexivity|lia]|].
  split; [apply Hnew; reflexivity|].
  apply Hproto; reflexivity.
Defined.

(** ** Photo story *)

(** X17: With at least one picture and an index inside the gallery, both
    buttons give an index inside the gallery, each undoes the other, and
    they wrap around at the ends. *)
Theorem photoStory_index (len idx : Z) :
  (0 < len)%Z -> (0 <= idx < len)%Z ->
  (0 <= PhotoStory.next len idx < len)%Z
  /\ (0 <= PhotoStory.previous len idx < len)%Z
  /\ PhotoStory.previous len (PhotoStory.next len idx) = idx
  /\ PhotoStory.next len (PhotoStory.previous len idx) = idx
  /\ PhotoStory.next len (len - 1) = 0%Z
  /\ PhotoStory.previous len 0 = (len - 1)%Z.
Proof.
  intros Hlen Hidx.
  assert (Hnext : forall i, (0 <= i < len)%Z ->
            PhotoStory.next len i = if (i + 1 =? len)%Z then 0%Z else (i + 1)%Z).
  { intros i Hi. unfold PhotoStory.next. rewrite Z.rem_mod_nonneg by lia.
    destruct (Z.eqb_spec (i + 1) len) as [->|Hne].
    - apply Z_mod_same_full.
    - apply Z.mod_small. lia. }
  assert (Hprev : forall i, (0 <= i < len)%Z ->
            PhotoStory.previous len i = if (i =? 0)%Z then (len - 1)%Z else (i - 1)%Z).
  { intros i Hi. unfold PhotoStory.previous. rewrite Z.rem_mod_nonneg by lia.
    destruct (Z.eqb_spec i 0) as [->|Hne].
    - rewrite Z.mod_small by lia. lia.
    - replace (i - 1 + len)%Z with (i - 1 + 1 * len)%Z by lia.
      rewrite Z_mod_plus_full. apply Z.mod_small. lia. }
  rewrite (Hnext idx Hidx), (Hprev idx Hidx).
  rewrite (Hnext (len - 1)%Z) by lia. rewrite (Hprev 0%Z) by lia.
  destruct (Z.eqb_spec (idx + 1) len) as [E1|E1];
    destruct (Z.eqb_spec idx 0) as [E2|E2];
    rewrite ?Hprev, ?Hnext by lia;
    repeat match goal with
    | |- context [(?x =? ?y)%Z] => destruct (Z.eqb_spec x y)
    end; lia.
Qed.

Lemma photoStory_index_witness :
  PhotoStory.next PhotoStory.itemsLength 2 = 0%Z
  /\ PhotoStory.previous PhotoStory.itemsLength 0 = 2%Z.
Proof.
  destruct (photoStory_index PhotoStory.itemsLength 0) as (_ & _ & _ & _ & Hn & Hp).
  - reflexivity.
  - split; [lia|reflexivity].
  - split; [exact Hn|exact Hp].
Defined.

(** ** Outline of a published submission *)

Lemma space_facts (c : ascii) :
  Js.isSpace c = true -> Js.toLowerChar c = c /\ notSlugChar c = false.
Proof.
  destruct c as [[] [] [] [] [] [] [] []]; vm_compute;
    intros; first [discriminate | auto].
Qed.

Lemma backtick_not_slug (c : ascii) :
  isBacktick c = true -> notSlugChar (Js.toLowerChar c) = true.
Proof. intros Hc. apply Ascii.eqb_eq in Hc. subst c. reflexivity. Qed.

Lemma strip_backticks_first (s : string) :
  Js.removeAll notSlugChar (Js.toLowerCase (Js.removeAll isBacktick s))
  = Js.removeAll notSlugChar (Js.toLowerCase s).
Proof.
  induction s as [|c s IH]; cbn; [reflexivity|].
  destruct (isBacktick c) eqn:Hc; cbn.
  - now rewrite (backtick_not_slug c Hc).
  - now rewrite IH.
Qed.

Lemma strip_trimStart (t : string) :
  Js.trimStart (Js.removeAll notSlugChar (Js.toLowerCase (Js.trimStart t)))
  = Js.trimStart (Js.removeAll notSlugChar (Js.toLowerCase t)).
Proof.
  induction t as [|c t IH]; cbn [Js.trimStart]; [reflexivity|].
  destruct (Js.isSpace c) eqn:Hc; [|reflexivity].
  cbn [Js.toLowerCase Js.removeAll].
  destruct (space_facts c Hc) as [-> ->]. cbn [Js.trimStart]. now rewrite Hc.
Qed.

(** Backticks and leading white space of a text do not show in its slug. *)
Lemma slugify_heading_text (t : string) :
  slugify (Js.removeAll isBacktick (Js.trimStart t)) = slugify t.
Proof.
  unfold slugify, Js.trim. now rewrite strip_backticks_first, strip_trimStart.
Qed.

Lemma trimStart_split (t : string) :
  exists pre, t = pre +:+ Js.trimStart t /\ allChars Js.isSpace pre = true.
Proof.
  induction t as [|c t IH]; cbn [Js.trimStart].
  - exists "". split; reflexivity.
  - destruct (Js.isSpace c) eqn:Hc.
    + destruct IH as (pre & Heq & Hpre). exists (String c pre).
      rewrite append_cons. cbn [allChars]. rewrite Hc, Hpre. split; [congruence|reflexivity].
    + exists "". split; reflexivity.
Qed.

Lemma splitChar_first_line (sep : ascii) (a b : string) :
  allChars (fun c => negb (Ascii.eqb c sep)) a = true ->
  Js.splitChar sep (a +:+ String sep b) = a :: Js.splitChar sep b.
Proof.
  induction a as [|x a IH]; intros Ha.
  - rewrite append_nil. cbn. now rewrite Ascii.eqb_refl.
  - cbn [allChars] in Ha. apply andb_prop in Ha as [Hx Ha].
    rewrite append_cons. cbn [Js.splitChar]. apply negb_true_iff in Hx. rewrite Hx.
    now rewrite (IH Ha).
Qed.

Lemma no_terminator_no_newline (t : string) :
  allChars notLineTerminator t = true ->
  allChars (fun c => negb (Ascii.eqb c "010")) t = true.
Proof.
  induction t as [|c t IH]; cbn; [reflexivity|]. intros H.
  apply andb_prop in H as [Hc Ht]. rewrite (IH Ht), andb_true_r.
  destruct (Ascii.eqb_spec c "010") as [->|]; [discriminate Hc|reflexivity].
Qed.

(** X18: The body [approve] builds opens with the title as a heading.  When the
    title has no line break and its slug is not empty, the first entry of
    the outline of the published post has level 1 and the slug of the
    post as its id, whatever the submitted text holds. *)
Theorem published_outline_head (clk : Clock) (s : Submission.t) :
  allChars notLineTerminator (Submission.title s) = true ->
  slugify (Submission.title s) <> "" ->
  exists rest,
    buildToc (Post.body (postOf clk s))
    = {| level := 1;
         text := Js.removeAll isBacktick (Js.trimStart (Submission.title s));
         id := Post.slug (postOf clk s) |} :: rest.
Proof.
  intros Hline Hslug. set (t := Submission.title s) in *.
  assert (Hid : Post.slug (postOf clk s) = slugify t).
  { cbn [postOf Post.slug]. unfold deriveSlug. fold t. now apply or_spec. }
  assert (Htxt : Js.trimStart t <> "").
  { intros E. apply Hslug. rewrite <- slugify_heading_text, E. reflexivity. }
  assert (Hhead : HeadingLine ("# " +:+ t) 1 (Js.trimStart t)).
  { destruct (trimStart_split t) as (pre & Heq & Hpre).
    exists (String " " pre). split.
    - cbn [hashes]. rewrite !append_cons, !append_nil. now rewrite <- Heq.
    - split; [lia|]. split; [discriminate|]. split; [cbn [allChars]; now rewrite Hpre|].
      split; [exact Htxt|]. split; [now apply allChars_trimStart|].
      left. apply startsWithSpace_trimStart. }
  cbn [postOf Post.body]. fold t.
  assert (Hbody : "# " +:+ t +:+ nl +:+ nl +:+ Submission.body s
                  = ("# " +:+ t) +:+ String "010" (nl +:+ Submission.body s)).
  { rewrite append_assoc. reflexivity. }
  rewrite Hbody. unfold buildToc.
  rewrite splitChar_first_line.
  - rewrite fold_tocStep. cbn [List.map List.concat app].
    rewrite (lineEntry_heading _ _ _ Hhead), Hid, slugify_heading_text.
    eexists. reflexivity.
  - rewrite !append_cons, append_nil. cbn [allChars].
    now rewrite (no_terminator_no_newline t Hline).
Qed.

Lemma published_outline_head_witness :
  exists rest,
    buildToc (Post.body (postOf noon introSubmission))
    = {| level := 1; text := "Pottery 101!"; id := "pottery-101" |} :: rest.
Proof.
  apply (published_outline_head noon introSubmission).
  - reflexivity.
  - discriminate.
Defined.

(** ** Outline of a body without marks *)

Lemma headingExec_needs_mark (line : string) :
  allChars (fun c => negb (Ascii.eqb c "#")) line = true -> headingExec line = None.
Proof.
  intros Hline. destruct (headingExec line) as [[m1 txt]|] eqn:Hex; [|reflexivity].
  apply headingExec_Some in Hex as (n & _ & ws & -> & Hn & _).
  destruct n as [|n]; [lia|]. cbn [hashes] in Hline. rewrite append_cons in Hline.
  discriminate Hline.
Qed.

Lemma splitChar_allChars (p : ascii -> bool) (sep : ascii) (s : string) :
  allChars p s = true -> Forall (fun piece => allChars p piece = true) (Js.splitChar sep s).
Proof.
  induction s as [|c s IH]; cbn; [repeat constructor|]. intros H.
  apply andb_prop in H as [Hc Hs]. specialize (IH Hs).
  destruct (Ascii.eqb c sep).
  - constructor; [reflexivity|exact IH].
  - destruct (Js.splitChar sep s) as [|q qs]; cbn.
    + repeat constructor. cbn. now rewrite Hc.
    + inversion IH as [|? ? Hq Hqs]; subst. constructor; [|exact Hqs].
      cbn. now rewrite Hc, Hq.
Qed.

Lemma concat_lineEntry_length (lines : list string) :
  (List.length (List.concat (List.map lineEntry lines)) <= List.length lines)%nat.
Proof.
  induction lines as [|line lines IH]; cbn; [lia|].
  rewrite length_app. unfold lineEntry at 1, tocStep.
  destruct (headingExec line) as [[m1 m2]|]; cbn; lia.
Qed.

(** X19: The outline has at most one entry per line of the body, and a body
    without [#] has an empty outline. *)
Theorem buildToc_bounds (body : string) :
  (List.length (buildToc body) <= List.length (Js.splitChar "010" body))%nat
  /\ (allChars (fun c => negb (Ascii.eqb c "#")) body = true -> buildToc body = []).
Proof.
  unfold buildToc. rewrite fold_tocStep. cbn [app]. split.
  - apply concat_lineEntry_length.
  - intros Hbody. apply (splitChar_allChars _ "010") in Hbody.
    induction Hbody as [|line lines Hline Hlines IH]; cbn; [reflexivity|].
    rewrite IH. unfold lineEntry, tocStep.
    now rewrite (headingExec_needs_mark line Hline).
Qed.

Lemma buildToc_bounds_witness : buildToc "Sun protection, hydration plan." = [].
Proof. apply (proj2 (buildToc_bounds "Sun protection, hydration plan.")). reflexivity. Defined.
